(** * The content layer of the Kali Linux features website

    A shallow embedding of [js/rss-fetcher.js] (class [RSSFetcher]) and
    [js/auto-content.js] (class [AutoContentManager]), and the properties
    their specification states about them.

    Conventions of the embedding.
    - A JavaScript string is a Rocq [string]: the sequence of bytes of its
      UTF-8 encoding.  Every character the code inspects (the five HTML
      specials, ASCII letters and digits, the underscore, the hyphen, ASCII
      white space) is a single byte, and every byte of a longer sequence is
      above 127, so the tests below never mistake part of one character for
      another.  Case mapping and white space are the ASCII ones.
    - A number that the code uses as an integer (a time value in
      milliseconds, a count) is a [Z]; [NaN] is [None] where it can arise.
    - A function that can throw returns a [Completion].
    - What the browser provides and the repository does not define (the
      HTML parser behind [innerHTML], the date parser, the locale's date
      format, the network) is a [Variable] of a section or an argument. *)

From Stdlib Require Import ZArith Lia Ascii String.
From stdpp Require Import base option list gmap strings sorting.

(** * The JavaScript built-ins the two classes call *)
Module JS.

(** ** Completions *)

Inductive JSError := TypeError | RangeError | SyntaxError | QuotaExceededError.

Inductive Completion (A : Type) :=
| Normal (a : A)
| Throw (e : JSError).
Arguments Normal {A} a.
Arguments Throw {A} e.

Definition bind {A B} (m : Completion A) (k : A → Completion B) : Completion B :=
  match m with
  | Normal a => k a
  | Throw e => Throw e
  end.

#[global] Instance Completion_ret : MRet Completion := @Normal.
#[global] Instance Completion_bind : MBind Completion := λ A B k m, bind m k.
#[global] Instance Completion_fmap : FMap Completion :=
  λ A B f m, bind m (λ a, Normal (f a)).

(** [Array.prototype.map] with a callback that can throw: the first
    exception ends the traversal. *)
Fixpoint map_throwing {A B} (f : A → Completion B) (l : list A) : Completion (list B) :=
  match l with
  | [] => Normal []
  | x :: l' => y ← f x; ys ← map_throwing f l'; Normal (y :: ys)
  end.

(** ** Characters and strings *)

Definition dq_char : ascii := ascii_of_nat 34.
Definition dq : string := String dq_char "".
(** [q s] is [s] between double quotes. *)
Definition q (s : string) : string := dq +:+ s +:+ dq.

Definition code (c : ascii) : nat := nat_of_ascii c.

Definition in_range (lo hi : nat) (c : ascii) : bool :=
  (lo <=? code c)%nat && (code c <=? hi)%nat.

(** White space of [String.prototype.trim] and of [\s]. *)
Definition isWhiteSpace (c : ascii) : bool :=
  in_range 9 13 c || (code c =? 32)%nat.

Definition isLower (c : ascii) : bool := in_range 97 122 c.
Definition isUpper (c : ascii) : bool := in_range 65 90 c.
Definition isDigit (c : ascii) : bool := in_range 48 57 c.

(** The class [\w]. *)
Definition isWordChar (c : ascii) : bool :=
  isLower c || isUpper c || isDigit c || (code c =? 95)%nat.

Definition toLowerCase_char (c : ascii) : ascii :=
  if isUpper c then ascii_of_nat (code c + 32) else c.

Fixpoint toLowerCase (s : string) : string :=
  match s with
  | EmptyString => EmptyString
  | String c s' => String (toLowerCase_char c) (toLowerCase s')
  end.

Fixpoint trimStart (s : string) : string :=
  match s with
  | EmptyString => EmptyString
  | String c s' => if isWhiteSpace c then trimStart s' else s
  end.

Fixpoint trimEnd (s : string) : string :=
  match s with
  | EmptyString => EmptyString
  | String c s' =>
      match trimEnd s' with
      | EmptyString => if isWhiteSpace c then EmptyString else String c EmptyString
      | r => String c r
      end
  end.

Definition trim (s : string) : string := trimEnd (trimStart s).

(** [s.substring(0, n)] for a literal [n]. *)
Fixpoint substring0 (n : nat) (s : string) : string :=
  match n, s with
  | S n', String c s' => String c (substring0 n' s')
  | _, _ => EmptyString
  end.

(** A string is falsy exactly when it is empty. *)
Definition truthy (s : string) : bool :=
  match s with EmptyString => false | _ => true end.

(** [String(v)] of a value that is a string or [undefined]. *)
Definition String_of (v : option string) : string := default "undefined" v.

(** [v || d] for such a value: [undefined] and the empty string are falsy. *)
Definition or_else (v : option string) (d : string) : string :=
  match v with
  | Some s => if truthy s then s else d
  | None => d
  end.

(** [parts.join('')]. *)
Definition join (parts : list string) : string :=
  foldr String.append EmptyString parts.

(** ** Arrays *)

(** [a.slice(0, n)] for an integer [n]: a negative [n] counts from the end. *)
Definition slice0 {A} (n : Z) (a : list A) : list A :=
  if (0 <=? n)%Z then take (Z.to_nat n) a
  else take (length a - Z.to_nat (- n)) a.

Section ArraySort.
Context {A : Type}.
(** The comparator's result: [None] is [NaN]. *)
Variable comparefn : A → A → option Z.

(** SortCompare: "if v is NaN, return +0". *)
Definition SortCompare (x y : A) : Z := default 0%Z (comparefn x y).

Fixpoint insert_sorted (x : A) (l : list A) : list A :=
  match l with
  | [] => [x]
  | y :: l' =>
      if (SortCompare x y <=? 0)%Z then x :: y :: l'
      else y :: insert_sorted x l'
  end.

(** The contents of an array after [Array.prototype.sort(comparefn)].  The
    language requires the sort to be stable; with a comparator that orders
    the elements consistently every stable sort yields the sequence computed
    here, by insertion.  (With an inconsistent comparator the order is left
    to the implementation; insertion is one.) *)
Fixpoint Array_sort (l : list A) : list A :=
  match l with
  | [] => []
  | x :: l' => insert_sorted x (Array_sort l')
  end.
End ArraySort.

(** ** Dates *)

(** The time value of a [Date] object: milliseconds since the epoch, or
    [NaN] for an invalid date. *)
Inductive JSDate := ValidDate (t : Z) | InvalidDate.

Section DateText.
Local Open Scope Z_scope.

Definition msPerDay : Z := 86400000.

Definition digit (d : Z) : ascii := ascii_of_nat (48 + Z.to_nat d).

(** [n] in decimal, on [w] digits. *)
Fixpoint pad (w : nat) (n : Z) : string :=
  match w with
  | O => EmptyString
  | S w' => pad w' (n / 10) +:+ String (digit (n mod 10)) EmptyString
  end.

(** Year, month and day of the month of a day number (days since the epoch),
    in the proleptic Gregorian calendar. *)
Definition civil_from_days (days : Z) : Z * Z * Z :=
  let z := days + 719468 in
  let era := z / 146097 in
  let doe := z - era * 146097 in
  let yoe := (doe - doe / 1460 + doe / 36524 - doe / 146096) / 365 in
  let doy := doe - (365 * yoe + yoe / 4 - yoe / 100) in
  let mp := (5 * doy + 2) / 153 in
  let d := doy - (153 * mp + 2) / 5 + 1 in
  let m := if mp <? 10 then mp + 3 else mp - 9 in
  let y := yoe + era * 400 + (if m <=? 2 then 1 else 0) in
  (y, m, d).

Definition year_text (y : Z) : string :=
  if (0 <=? y) && (y <=? 9999) then pad 4 y
  else (if y <? 0 then "-" else "+") +:+ pad 6 (Z.abs y).

(** [Date.prototype.toISOString] of a valid time value. *)
Definition toISOString (t : Z) : string :=
  let '(y, m, d) := civil_from_days (t / msPerDay) in
  let ms := t mod msPerDay in
  year_text y +:+ "-" +:+ pad 2 m +:+ "-" +:+ pad 2 d +:+ "T" +:+
  pad 2 (ms / 3600000) +:+ ":" +:+ pad 2 (ms / 60000 mod 60) +:+ ":" +:+
  pad 2 (ms / 1000 mod 60) +:+ "." +:+ pad 3 (ms mod 1000) +:+ "Z".
End DateText.

(** ** URIs *)

Definition hex_digit (n : nat) : ascii :=
  if (n <? 10)%nat then ascii_of_nat (48 + n) else ascii_of_nat (55 + n).

Definition isUnreserved (c : ascii) : bool :=
  isLower c || isUpper c || isDigit c ||
  bool_decide (c ∈ ["-"; "_"; "."; "!"; "~"; "*"; "'"; "("; ")"]%char).

Fixpoint encodeURIComponent (s : string) : string :=
  match s with
  | EmptyString => EmptyString
  | String c s' =>
      (if isUnreserved c then String c EmptyString
       else String "%" (String (hex_digit (code c / 16))
                          (String (hex_digit (code c mod 16)) EmptyString)))
      +:+ encodeURIComponent s'
  end.

End JS.


(** * [js/rss-fetcher.js]: class [RSSFetcher] *)
Module RSSFetcher.
Import JS.

(** ** Data *)

(** What the [pubDate] property of an article holds: the [Date] object that
    [parseFeedItems] builds, or what [JSON.parse] gives back for it after
    [JSON.stringify] (the ISO text of a valid date, [null] for an invalid
    one). *)
Inductive PubDate :=
| DateObject (d : JSDate)
| DateISO (s : string)
| DateNull.

Record Article := {
  title : string;
  link : option string;
  description : string;
  pubDate : PubDate;
  author : string;
  thumbnail : string;
  categories : list string;
  source : string
}.

#[global] Instance JSDate_eq_dec : EqDecision JSDate.
Proof. solve_decision. Defined.
#[global] Instance PubDate_eq_dec : EqDecision PubDate.
Proof. solve_decision. Defined.
#[global] Instance Article_eq_dec : EqDecision Article.
Proof. solve_decision. Defined.

(** The body of the proxy's answer, a JSON document of the shape
    [{ items: [{title, link, description, pubDate, author?, thumbnail?,
    enclosure?: {link}, categories?}], feed: {title} }]: texts and lists of
    texts, where a property that is absent is [None]. *)
Record Enclosure := { enclosure_link : option string }.

Record Item := {
  item_title : option string;
  item_link : option string;
  item_description : option string;
  item_pubDate : option string;
  item_author : option string;
  item_thumbnail : option string;
  item_enclosure : option Enclosure;
  item_categories : option (list string)
}.

Record Feed := { feed_title : option string }.

Record FeedData := {
  items : option (list Item);
  feed : option Feed
}.

(** ** The constructor *)

(** The [options] object: a property that is absent is [None]. *)
Record Options := {
  opt_corsProxy : option string;
  opt_feeds : option (list string);
  opt_maxArticles : option Z;
  opt_updateInterval : option Z;
  opt_container : option string
}.

Record Self := {
  corsProxy : string;
  feeds : list string;
  maxArticles : Z;
  updateInterval : Z;
  container : string
}.

(** [v || d] for a number: [undefined] and [0] are falsy. *)
Definition number_or (v : option Z) (d : Z) : Z :=
  match v with
  | Some n => if (n =? 0)%Z then d else n
  | None => d
  end.

Definition constructor (options : Options) : Self := {|
  corsProxy := or_else (opt_corsProxy options) "https://api.rss2json.com/v1/api.json?rss_url=";
  feeds := default ["https://www.kali.org/rss.xml";
                    "https://gbhackers.com/feed/";
                    "https://www.bleepingcomputer.com/feed/"] (opt_feeds options);
  maxArticles := number_or (opt_maxArticles options) 10;
  updateInterval := number_or (opt_updateInterval options) 3600000;
  container := or_else (opt_container options) "#news-feed"
|}.

(** ** Fetching *)

(** What [fetch] settles to: [None] is a rejected promise (the request never
    got an answer); [body] is [None] when the answer is not the JSON
    document expected, so that [response.json()] rejects. *)
Record Response := {
  status : Z;
  body : option FeedData
}.

Definition Network := string → option Response.

Definition ok (response : Response) : bool :=
  (200 <=? status response)%Z && (status response <=? 299)%Z.

(** [fetchFeed]: every failure is caught and becomes [null]. *)
Definition fetchFeed (this : Self) (net : Network) (feedUrl : string) : option FeedData :=
  match net (corsProxy this +:+ encodeURIComponent feedUrl) with
  | None => None
  | Some response =>
      if negb (ok response) then None
      else match body response with
           | Some data => Some data
           | None => None
           end
  end.

(** [fetchAllFeeds]: [Promise.all] keeps the order of the feeds. *)
Definition fetchAllFeeds (this : Self) (net : Network) : list (option FeedData) :=
  let results := map (λ feed, fetchFeed this net feed) (feeds this) in
  filter (λ result, result ≠ None) results.

(** ** Parsing *)

Section Parsing.
(** [new Date(text)] for a string, left to the engine's date parser. *)
Variable Date_parse : string → JSDate.
(** The [textContent] and the [innerText] of a detached [div] whose
    [innerHTML] was set to the given text: the work of the HTML parser. *)
Variable textContent_of : string → string.
Variable innerText_of : string → string.

(** [new Date(v)] for a string or [undefined]. *)
Definition new_Date (v : option string) : JSDate :=
  match v with
  | Some s => Date_parse s
  | None => InvalidDate
  end.

Definition sanitizeText (text : option string) : string :=
  match text with
  | None => ""
  | Some text =>
      if negb (truthy text) then ""
      else
        let cleanText :=
          or_else (Some (textContent_of text)) (or_else (Some (innerText_of text)) "") in
        substring0 200 (trim cleanText)
  end.

Definition parseFeedItems (feedData : option FeedData) : list Article :=
  match feedData with
  | None => []
  | Some feedData =>
      match items feedData with
      | None => []
      | Some its =>
          map (λ item, {|
            title := sanitizeText (item_title item);
            link := item_link item;
            description := sanitizeText (item_description item);
            pubDate := DateObject (new_Date (item_pubDate item));
            author := or_else (item_author item) "Unknown";
            thumbnail :=
              or_else (item_thumbnail item)
                (or_else (item_enclosure item ≫= enclosure_link) "");
            categories := default [] (item_categories item);
            source := or_else (feed feedData ≫= feed_title) "External Source"
          |}) its
      end
  end.
End Parsing.

(** ** Rendering *)

Definition escape_char (m : ascii) : string :=
  if Ascii.eqb m "&" then "&amp;"
  else if Ascii.eqb m "<" then "&lt;"
  else if Ascii.eqb m ">" then "&gt;"
  else if Ascii.eqb m dq_char then "&quot;"
  else if Ascii.eqb m "'" then "&#039;"
  else String m EmptyString.

(** [escapeHtml]: every match [m] of the class of the five special
    characters is replaced by [map[m]]. *)
Fixpoint escapeHtml (text : string) : string :=
  match text with
  | EmptyString => EmptyString
  | String m text' => escape_char m +:+ escapeHtml text'
  end.

(** The literal text of the template of [generateArticleHTML], piece by
    piece, in the order of the source. *)
Definition tpl_article_open : string :=
  "
            <article class=" +:+ q "auto-post" +:+ " itemscope itemtype=" +:+ q "https://schema.org/Article" +:+ ">
                ".

Definition tpl_thumb_open : string :=
  "
                    <div class=" +:+ q "article-thumbnail" +:+ ">
                        <img src=" +:+ dq.

Definition tpl_thumb_alt : string :=
  dq +:+ " 
                             alt=" +:+ dq.

Definition tpl_thumb_close : string :=
  dq +:+ " 
                             loading=" +:+ q "lazy" +:+ "
                             itemprop=" +:+ q "image" +:+ ">
                    </div>
                ".

Definition tpl_content_open : string :=
  "
                <div class=" +:+ q "article-content" +:+ ">
                    <header>
                        <h3 itemprop=" +:+ q "headline" +:+ ">
                            <a href=" +:+ dq.

Definition tpl_link_attrs : string :=
  dq +:+ " 
                               target=" +:+ q "_blank" +:+ " 
                               rel=" +:+ q "noopener noreferrer nofollow" +:+ "
                               itemprop=" +:+ q "url" +:+ ">
                                ".

Definition tpl_headline_close : string :=
  "
                            </a>
                        </h3>
                        <div class=" +:+ q "article-meta" +:+ ">
                            <time datetime=" +:+ dq.

Definition tpl_time_attr : string :=
  dq +:+ " itemprop=" +:+ q "datePublished" +:+ ">
                                ".

Definition tpl_time_close : string :=
  "
                            </time>
                            <span class=" +:+ q "article-source" +:+ " itemprop=" +:+ q "publisher" +:+ " itemscope itemtype=" +:+ q "https://schema.org/Organization" +:+ ">
                                <span itemprop=" +:+ q "name" +:+ ">".

Definition tpl_source_close : string :=
  "</span>
                            </span>
                            ".

Definition tpl_author_open : string :=
  "
                                <span class=" +:+ q "article-author" +:+ " itemprop=" +:+ q "author" +:+ " itemscope itemtype=" +:+ q "https://schema.org/Person" +:+ ">
                                    <span itemprop=" +:+ q "name" +:+ ">".

Definition tpl_author_close : string :=
  "</span>
                                </span>
                            ".

Definition tpl_meta_close : string :=
  "
                        </div>
                    </header>
                    <p class=" +:+ q "article-description" +:+ " itemprop=" +:+ q "description" +:+ ">
                        ".

Definition tpl_description_close : string :=
  "
                    </p>
                    ".

Definition tpl_categories_open : string :=
  "
                        <div class=" +:+ q "article-categories" +:+ ">
                            ".

Definition tpl_category_open : string :=
  "<span class=" +:+ q "category-tag" +:+ " itemprop=" +:+ q "keywords" +:+ ">".

Definition tpl_category_close : string :=
  "</span>".

Definition tpl_categories_close : string :=
  "
                        </div>
                    ".

Definition tpl_readmore_open : string :=
  "
                    <a href=" +:+ dq.

Definition tpl_article_close : string :=
  dq +:+ " 
                       class=" +:+ q "read-more" +:+ " 
                       target=" +:+ q "_blank" +:+ " 
                       rel=" +:+ q "noopener noreferrer nofollow" +:+ ">
                        Read More →
                    </a>
                </div>
            </article>
        ".

(** A template literal is a sequence of pieces: literal text, and the values
    of its substitutions.  A substitution of the article template is either
    [this.escapeHtml(field)] or a text computed from [pubDate]. *)
Inductive Chunk :=
| Markup (s : string)
| Escaped (field : string)
| DateText (s : string).

Definition render_chunk (c : Chunk) : string :=
  match c with
  | Markup s => s
  | Escaped field => escapeHtml field
  | DateText s => s
  end.

Definition render (chunks : list Chunk) : string :=
  join (render_chunk <$> chunks).

Section Rendering.
(** [date.toLocaleDateString('en-US', {year: 'numeric', month: 'short',
    day: 'numeric'})] of a valid time value, in the browser's time zone. *)
Variable toLocaleDateString : Z → string.

(** [article.pubDate.toISOString()]. *)
Definition pubDate_toISOString (d : PubDate) : Completion string :=
  match d with
  | DateObject (ValidDate t) => Normal (toISOString t)
  | DateObject InvalidDate => Throw RangeError
  | DateISO _ | DateNull => Throw TypeError
  end.

Definition formatDate (date : PubDate) : Completion string :=
  match date with
  | DateObject (ValidDate t) => Normal (toLocaleDateString t)
  | DateObject InvalidDate => Normal "Invalid Date"
  | DateISO _ | DateNull => Throw TypeError
  end.

(** The template of one article. *)
Definition articleTemplate (article : Article) : Completion (list Chunk) :=
  let thumbnailBlock :=
    if truthy (thumbnail article) then
      [Markup tpl_thumb_open; Escaped (thumbnail article);
       Markup tpl_thumb_alt; Escaped (title article);
       Markup tpl_thumb_close]
    else [] in
  iso ← pubDate_toISOString (pubDate article);
  formatted ← formatDate (pubDate article);
  let authorBlock :=
    if bool_decide (author article ≠ "Unknown") then
      [Markup tpl_author_open; Escaped (author article); Markup tpl_author_close]
    else [] in
  let categoriesBlock :=
    if bool_decide (0 < length (categories article)) then
      [Markup tpl_categories_open] ++
      (slice0 3 (categories article) ≫= λ cat,
         [Markup tpl_category_open; Escaped cat; Markup tpl_category_close]) ++
      [Markup tpl_categories_close]
    else [] in
  Normal (
    [Markup tpl_article_open] ++ thumbnailBlock ++
    [Markup tpl_content_open; Escaped (String_of (link article));
     Markup tpl_link_attrs; Escaped (title article);
     Markup tpl_headline_close; DateText iso;
     Markup tpl_time_attr; DateText formatted;
     Markup tpl_time_close; Escaped (source article);
     Markup tpl_source_close] ++ authorBlock ++
    [Markup tpl_meta_close; Escaped (description article);
     Markup tpl_description_close] ++ categoriesBlock ++
    [Markup tpl_readmore_open; Escaped (String_of (link article));
     Markup tpl_article_close]).

Definition generateArticleHTML (this : Self) (articles : list Article) : Completion string :=
  cards ← map_throwing (λ article, render <$> articleTemplate article)
            (slice0 (maxArticles this) articles);
  Normal (join cards).
End Rendering.

(** ** Sorting *)

(** [ToNumber] of a [pubDate], as the subtraction of the comparator applies
    it: the time value of a [Date], [0] for [null], and [NaN] for an ISO
    text (which is no numeric literal). *)
Definition ToNumber (d : PubDate) : option Z :=
  match d with
  | DateObject (ValidDate t) => Some t
  | DateObject InvalidDate => None
  | DateISO _ => None
  | DateNull => Some 0%Z
  end.

(** The comparator [(a, b) => b.pubDate - a.pubDate]. *)
Definition compareByDate (a b : Article) : option Z :=
  match ToNumber (pubDate b), ToNumber (pubDate a) with
  | Some x, Some y => Some (x - y)%Z
  | _, _ => None
  end.

(** Arrays are objects: a variable holds a reference, and the heap maps a
    reference to the contents of its array. *)
Abbreviation Heap := (gmap nat (list Article)).

(** [sortArticlesByDate]: [Array.prototype.sort] reorders the array that
    [articles] refers to and returns that reference. *)
Definition sortArticlesByDate (articles : nat) (heap : Heap) : nat * Heap :=
  match heap !! articles with
  | Some contents => (articles, <[articles := Array_sort compareByDate contents]> heap)
  | None => (articles, heap)
  end.

(** [sortArticlesByDate] on an array that the caller has just built and
    that no one else holds: the contents of the array it returns. *)
Definition sorted_fresh (contents : list Article) : list Article :=
  let '(sortedArticles, heap) := sortArticlesByDate 0 {[ 0 := contents ]} in
  default [] (heap !! sortedArticles).

(** ** The cache *)

(** The text that local storage holds under a key.  The text that
    [JSON.stringify] writes for the cache record is represented by the
    document [JSON.parse] reads back from it. *)
Inductive StoredText :=
| CacheRecord (articles : list Article) (timestamp : Z)
| OtherText (s : string).

(** The page as the class sees it: the [innerHTML] of the element each
    selector finds, local storage, and whether storage refuses a write
    ([setItem] throws when the quota is exceeded). *)
Record Browser := {
  elements : gmap string string;
  localStorage : gmap string StoredText;
  storage_full : bool
}.

Definition set_innerHTML (selector html : string) (b : Browser) : Browser :=
  {| elements := <[selector := html]> (elements b);
     localStorage := localStorage b;
     storage_full := storage_full b |}.

Definition setItem (key : string) (value : StoredText) (b : Browser) : Completion Browser :=
  if storage_full b then Throw QuotaExceededError
  else Normal {| elements := elements b;
                 localStorage := <[key := value]> (localStorage b);
                 storage_full := storage_full b |}.

(** [Date.prototype.toJSON], as [JSON.stringify] calls it, followed by
    [JSON.parse]: a valid date comes back as its ISO text, an invalid one as
    [null]. *)
Definition pubDate_toJSON (d : PubDate) : PubDate :=
  match d with
  | DateObject (ValidDate t) => DateISO (toISOString t)
  | DateObject InvalidDate => DateNull
  | DateISO s => DateISO s
  | DateNull => DateNull
  end.

(** An article after [JSON.parse(JSON.stringify(article))]: strings and
    arrays of strings come back as they were, and an [undefined] property
    is absent before and after. *)
Definition Article_toJSON (a : Article) : Article := {|
  title := title a;
  link := link a;
  description := description a;
  pubDate := pubDate_toJSON (pubDate a);
  author := author a;
  thumbnail := thumbnail a;
  categories := categories a;
  source := source a
|}.

(** [cacheArticles] at the time [now] that [Date.now()] returns: an
    exception is caught and logged. *)
Definition cacheArticles (articles : list Article) (now : Z) (b : Browser) : Browser :=
  let cacheData := CacheRecord (Article_toJSON <$> articles) now in
  match setItem "rss_cache" cacheData b with
  | Normal b' => b'
  | Throw _ => b
  end.

(** [getCachedArticles] at the time [now]; [None] is [null].  A text that is
    empty is falsy; any other text that is not a cache record makes
    [JSON.parse] throw or has no numeric [timestamp], and both end in
    [null]. *)
Definition getCachedArticles (this : Self) (now : Z) (b : Browser) : option (list Article) :=
  match localStorage b !! "rss_cache" with
  | None => None
  | Some (OtherText _) => None
  | Some (CacheRecord articles timestamp) =>
      let age := (now - timestamp)%Z in
      if (age <? updateInterval this)%Z then Some articles else None
  end.

(** ** Display *)

Definition loading_html : string :=
  "<div class=" +:+ q "loading" +:+ ">Loading latest cybersecurity news...</div>".

Definition error_html : string :=
  "<div class=" +:+ q "error" +:+ ">Failed to load articles. Please try again later.</div>".

Section Display.
Variable Date_parse : string → JSDate.
Variable textContent_of : string → string.
Variable innerText_of : string → string.
Variable toLocaleDateString : Z → string.

(** [displayArticles]: [t_read] and [t_write] are what [Date.now()] returns
    in [getCachedArticles] and in [cacheArticles]; the result is the page
    afterwards and how the call completed (a [Throw] is a rejected
    promise). *)
Definition displayArticles (this : Self) (net : Network) (t_read t_write : Z)
    (b : Browser) : Browser * Completion unit :=
  match elements b !! container this with
  | None => (b, Normal ())
  | Some _ =>
      let b := set_innerHTML (container this) loading_html b in
      match getCachedArticles this t_read b with
      | Some cachedArticles =>
          match generateArticleHTML toLocaleDateString this cachedArticles with
          | Normal html => (set_innerHTML (container this) html b, Normal ())
          | Throw e => (b, Throw e)
          end
      | None =>
          let feeds := fetchAllFeeds this net in
          if bool_decide (length feeds = 0) then
            (set_innerHTML (container this) error_html b, Normal ())
          else
            let allArticles :=
              foldl (λ allArticles feed,
                       allArticles ++ parseFeedItems Date_parse textContent_of innerText_of feed)
                [] feeds in
            let sortedArticles := sorted_fresh allArticles in
            let b := cacheArticles sortedArticles t_write b in
            match generateArticleHTML toLocaleDateString this sortedArticles with
            | Normal html => (set_innerHTML (container this) html b, Normal ())
            | Throw e => (b, Throw e)
            end
      end
  end.
End Display.

(** ** Periodic refresh *)

Definition removeItem (key : string) (b : Browser) : Browser :=
  {| elements := elements b;
     localStorage := delete key (localStorage b);
     storage_full := storage_full b |}.

Section AutoUpdate.
Variable Date_parse : string → JSDate.
Variable textContent_of : string → string.
Variable innerText_of : string → string.
Variable toLocaleDateString : Z → string.

(** The callback that [startAutoUpdate] hands to [setInterval]: it clears
    the cache and displays the articles. *)
Definition autoUpdateTick (this : Self) (net : Network) (t_read t_write : Z)
    (b : Browser) : Browser * Completion unit :=
  let b := removeItem "rss_cache" b in
  displayArticles Date_parse textContent_of innerText_of toLocaleDateString
    this net t_read t_write b.
End AutoUpdate.

End RSSFetcher.

(** * [js/auto-content.js]: class [AutoContentManager] *)
Module AutoContentManager.
Import JS.

(** ** Meta tags *)

(** An element: its local name and its attributes.  The document is an HTML
    document, where [setAttribute] lower-cases the name it is given and an
    attribute selector matches the name without regard to case. *)
Record Element := {
  localName : string;
  attributes : gmap string string
}.

(** The elements that a [meta[...]] selector can find, in document order:
    the children of [document.head], where [appendChild] adds the new ones. *)
Abbreviation Document := (list Element).

Definition createElement (name : string) : Element :=
  {| localName := name; attributes := ∅ |}.

Definition setAttribute (name value : string) (e : Element) : Element :=
  {| localName := localName e;
     attributes := <[toLowerCase name := value]> (attributes e) |}.

(** The attributes whose values a selector compares without regard to case
    on the elements of an HTML document. *)
Definition case_insensitive_values : list string :=
  ["accept"; "accept-charset"; "align"; "alink"; "axis"; "bgcolor"; "charset";
   "checked"; "clear"; "codetype"; "color"; "compact"; "declare"; "defer";
   "dir"; "direction"; "disabled"; "enctype"; "face"; "frame"; "hreflang";
   "http-equiv"; "lang"; "language"; "link"; "media"; "method"; "multiple";
   "nohref"; "noresize"; "noshade"; "nowrap"; "readonly"; "rel"; "rev";
   "rules"; "scope"; "scrolling"; "selected"; "shape"; "target"; "text";
   "type"; "valign"; "valuetype"; "vlink"].

Definition value_matches (name value wanted : string) : Prop :=
  if decide (name ∈ case_insensitive_values)
  then toLowerCase value = toLowerCase wanted
  else value = wanted.

(** Whether an element matches [meta[attributeType="property"]]. *)
Definition matches_selector (attributeType property : string) (e : Element) : Prop :=
  localName e = "meta" ∧
  match attributes e !! toLowerCase attributeType with
  | Some value => value_matches (toLowerCase attributeType) value property
  | None => False
  end.

#[global] Instance value_matches_dec name value wanted :
  Decision (value_matches name value wanted).
Proof. unfold value_matches. case_decide; apply _. Defined.

#[global] Instance matches_selector_dec attributeType property e :
  Decision (matches_selector attributeType property e).
Proof.
  unfold matches_selector.
  destruct (attributes e !! toLowerCase attributeType); apply _.
Defined.

Fixpoint string_forall (p : ascii → bool) (s : string) : bool :=
  match s with
  | EmptyString => true
  | String c s' => p c && string_forall p s'
  end.

Definition isHyphen (c : ascii) : bool := (code c =? 45)%nat.

(** A name that the selector can hold as it is and that [setAttribute]
    accepts: a letter or an underscore, then letters, digits, hyphens and
    underscores. *)
Definition plain_name (s : string) : bool :=
  match s with
  | EmptyString => false
  | String c s' =>
      (isLower c || isUpper c || (code c =? 95)%nat) &&
      string_forall (λ c, isWordChar c || isHyphen c) s'
  end.

(** A value that a selector can hold as it is between double quotes: no
    double quote, no backslash, no line break, no null character. *)
Definition plain_value (s : string) : bool :=
  string_forall (λ c, negb (bool_decide (code c ∈ [0; 10; 12; 13; 34; 92]))) s.

(** [document.querySelector(`meta[${attributeType}="${property}"]`)]: the
    first match and its position.  The arguments are pasted into the text of
    the selector.  For a plain name and a plain value the text is the
    selector above.  Any other text either is rejected by the parser of
    selectors (a quote or a line break in the value, a name that is no
    identifier) or is read as some other selector (a backslash in the
    value): the embedding follows neither and gives the [SyntaxError]. *)
Definition querySelector_meta (attributeType property : string) (document : Document)
    : Completion (option (nat * Element)) :=
  if plain_name attributeType && plain_value property
  then Normal (list_find (matches_selector attributeType property) document)
  else Throw SyntaxError.

(** [updateMetaTag(property, content, attributeType = 'property')]:
    [content] and [attributeType] are strings or [undefined]. *)
Definition updateMetaTag (property : string) (content attributeType : option string)
    (document : Document) : Completion Document :=
  let attributeType := default "property" attributeType in
  match content with
  | None => Normal document
  | Some content =>
      if negb (truthy content) then Normal document
      else
        tag ← querySelector_meta attributeType property document;
        Normal
          match tag with
          | Some (i, _) => alter (setAttribute "content" content) i document
          | None =>
              let tag := setAttribute attributeType property (createElement "meta") in
              document ++ [setAttribute "content" content tag]
          end
  end.

(** ** Slugs *)

(** [s.replace(/\s+/g, '-')]: [in_run] says that the character before was
    white space too. *)
Fixpoint replace_whitespace (in_run : bool) (s : string) : string :=
  match s with
  | EmptyString => EmptyString
  | String c s' =>
      if isWhiteSpace c then
        if in_run then replace_whitespace true s'
        else String "-" (replace_whitespace true s')
      else String c (replace_whitespace false s')
  end.

(** [s.replace(/[^\w\-]+/g, '')]. *)
Fixpoint strip_non_word (s : string) : string :=
  match s with
  | EmptyString => EmptyString
  | String c s' =>
      if isWordChar c || isHyphen c then String c (strip_non_word s')
      else strip_non_word s'
  end.

(** [s.replace(/\-\-+/g, '-')]. *)
Fixpoint collapse_hyphens (in_run : bool) (s : string) : string :=
  match s with
  | EmptyString => EmptyString
  | String c s' =>
      if isHyphen c then
        if in_run then collapse_hyphens true s'
        else String c (collapse_hyphens true s')
      else String c (collapse_hyphens false s')
  end.

Definition slugify (text : string) : string :=
  collapse_hyphens false
    (strip_non_word
       (replace_whitespace false
          (trim (toLowerCase text)))).

(** ** Keywords *)

(** [\b] between two neighbours; [None] is an end of the text. *)
Definition is_word (c : option ascii) : bool :=
  match c with Some c => isWordChar c | None => false end.

Definition boundary (prev next : option ascii) : bool :=
  xorb (is_word prev) (is_word next).

(** How many characters of [[a-z]] the text starts with. *)
Fixpoint lower_run (s : string) : nat :=
  match s with
  | String c s' => if isLower c then S (lower_run s') else 0
  | EmptyString => 0
  end.

(** [[a-z]{4,}\b] with [k] characters available to the quantifier: it takes
    them all and gives back one at a time until [\b] holds after it. *)
Fixpoint backtrack (k : nat) (s : string) : option string :=
  match k with
  | O => None
  | S k' =>
      if (k <? 4)%nat then None
      else if boundary (String.get k' s) (String.get k s) then Some (substring0 k s)
      else backtrack k' s
  end.

(** A match of [\b[a-z]{4,}\b] that starts here, after [prev]. *)
Definition match_here (prev : option ascii) (s : string) : option string :=
  if boundary prev (String.get 0 s) then backtrack (lower_run s) s else None.

(** [s.match(/\b[a-z]{4,}\b/g) || []]: all the matches, from left to right;
    the search goes on after the end of a match ([skip] characters on). *)
Fixpoint match_all (prev : option ascii) (skip : nat) (s : string) : list string :=
  match s with
  | EmptyString => []
  | String c s' =>
      match skip with
      | S skip' => match_all (Some c) skip' s'
      | O =>
          match match_here prev s with
          | Some m => m :: match_all (Some c) (String.length m - 1) s'
          | None => match_all (Some c) 0 s'
          end
      end
  end.

Definition commonWords : list string :=
  ["the"; "is"; "at"; "which"; "on"; "a"; "an"; "and"; "or"; "but"; "in";
   "with"; "to"; "for"].

Definition words (text : string) : list string :=
  match_all None 0 (toLowerCase text).

Definition filtered (text : string) : list string :=
  filter (λ word, word ∉ commonWords) (words text).

(** A value of the [frequency] object: a number or a string. *)
Inductive Value := Num (n : Z) | Str (s : string).

(** The own properties of [frequency], in the order of their creation,
    which is the order of [Object.entries] for keys that are no array
    indices. *)
Abbreviation Properties := (list (string * Value)).

Fixpoint get_own (key : string) (o : Properties) : option Value :=
  match o with
  | [] => None
  | (k, v) :: o' => if decide (k = key) then Some v else get_own key o'
  end.

Fixpoint set_own (key : string) (v : Value) (o : Properties) : Properties :=
  match o with
  | [] => [(key, v)]
  | (k, w) :: o' => if decide (k = key) then (k, v) :: o' else (k, w) :: set_own key v o'
  end.

(** [frequency] is created by [{}], so a key that is no own property is
    looked up in [Object.prototype].  Of its property names only
    [constructor] is made of lower-case letters alone; its value is the
    function [Object], which is truthy and which [+ 1] turns into the text
    of the function followed by [1]. *)
Definition Object_prototype (key : string) : option string :=
  if decide (key = "constructor") then Some "function Object() { [native code] }"
  else None.

(** [(frequency[word] || 0) + 1]. *)
Definition incremented (frequency : Properties) (word : string) : Value :=
  match get_own word frequency with
  | Some (Num n) => if (n =? 0)%Z then Num 1 else Num (n + 1)
  | Some (Str s) => if truthy s then Str (s +:+ "1") else Num 1
  | None =>
      match Object_prototype word with
      | Some f => Str (f +:+ "1")
      | None => Num 1
      end
  end.

Definition count_words (filtered : list string) : Properties :=
  foldl (λ frequency word, set_own word (incremented frequency word) frequency)
    [] filtered.

(** The comparator [(a, b) => b[1] - a[1]]: a string that is no numeric
    literal makes the difference [NaN]. *)
Definition compareEntries (a b : string * Value) : option Z :=
  match b.2, a.2 with
  | Num x, Num y => Some (x - y)%Z
  | _, _ => None
  end.

(** [extractKeywords(text, count = 10)]. *)
Definition extractKeywords (text : string) (count : option Z) : list string :=
  let count := default 10%Z count in
  let frequency := count_words (filtered text) in
  (slice0 count (Array_sort compareEntries frequency)).*1.

(** ** Canonical link, keywords and the meta tags of an article *)

(** Whether an element matches [name[attr="value"]], for a selector that is
    written out in the source. *)
Definition matches_element (name attr value : string) (e : Element) : Prop :=
  localName e = name ∧
  match attributes e !! attr with
  | Some v => value_matches attr v value
  | None => False
  end.

#[global] Instance matches_element_dec name attr value e :
  Decision (matches_element name attr value e) | 10.
Proof. unfold matches_element. destruct (attributes e !! attr); apply _. Defined.

(** [setCanonicalURL(url)]. *)
Definition setCanonicalURL (url : string) (document : Document) : Document :=
  match list_find (matches_element "link" "rel" "canonical") document with
  | Some (i, _) => alter (setAttribute "href" url) i document
  | None =>
      let canonical := setAttribute "rel" "canonical" (createElement "link") in
      document ++ [setAttribute "href" url canonical]
  end.

(** [parts.join(', ')]. *)
Fixpoint join_comma (parts : list string) : string :=
  match parts with
  | [] => ""
  | [s] => s
  | s :: rest => s +:+ ", " +:+ join_comma rest
  end.

(** [updateKeywords(keywords)]. *)
Definition updateKeywords (keywords : list string) (document : Document) : Document :=
  match list_find (matches_element "meta" "name" "keywords") document with
  | Some (i, _) => alter (setAttribute "content" (join_comma keywords)) i document
  | None =>
      let keywordsMeta := setAttribute "name" "keywords" (createElement "meta") in
      document ++ [setAttribute "content" (join_comma keywords) keywordsMeta]
  end.




(** ** Sitemap entries *)

(** What [new Date(v)] can be given here. *)
Inductive DateArgument :=
| OfDate (d : JSDate)
| OfText (s : string)
| OfNumber (n : Z)
| OfNull
| OfUndefined.

Record SitemapArticle := {
  sitemap_link : option string;
  sitemap_pubDate : DateArgument
}.

Record SitemapEntry := {
  loc : option string;
  lastmod : string;
  changefreq : string;
  priority : string
}.

(** [s.split('T')[0]]: the text before the first [T]. *)
Fixpoint before_T (s : string) : string :=
  match s with
  | EmptyString => EmptyString
  | String c s' => if Ascii.eqb c "T" then EmptyString else String c (before_T s')
  end.

Section Sitemap.
Variable Date_parse : string → JSDate.

(** [new Date(v)]: a date is copied, a text is parsed, a number is a time
    value if it is in the range of time values, [null] is the epoch. *)
Definition Date_of (v : DateArgument) : JSDate :=
  match v with
  | OfDate d => d
  | OfText s => Date_parse s
  | OfNumber n =>
      if (Z.abs n <=? 8640000000000000)%Z then ValidDate n else InvalidDate
  | OfNull => ValidDate 0
  | OfUndefined => InvalidDate
  end.

(** [d.toISOString()]: a [RangeError] on an invalid date. *)
Definition Date_toISOString (d : JSDate) : Completion string :=
  match d with
  | ValidDate t => Normal (toISOString t)
  | InvalidDate => Throw RangeError
  end.

(** [generateSitemapEntry(articles)]. *)
Definition generateSitemapEntry (articles : list SitemapArticle)
    : Completion (list SitemapEntry) :=
  map_throwing (λ article,
    iso ← Date_toISOString (Date_of (sitemap_pubDate article));
    Normal {| loc := sitemap_link article;
              lastmod := before_T iso;
              changefreq := "daily";
              priority := "0.8" |}) articles.
End Sitemap.

End AutoContentManager.

(** * The vocabulary of the properties *)
Module Spec.
Import JS RSSFetcher.

(** ** Escaped text *)

(** A text is in escaped form when none of [<], [>], the double quote and the
    apostrophe occurs in it, and every [&] starts one of the five entities. *)
Definition entity_tails : list string := ["amp;"; "lt;"; "gt;"; "quot;"; "#039;"].

Fixpoint starts_with (p s : string) : bool :=
  match p with
  | EmptyString => true
  | String a p' =>
      match s with
      | String b s' => Ascii.eqb a b && starts_with p' s'
      | EmptyString => false
      end
  end.

Fixpoint escaped_form (s : string) : bool :=
  match s with
  | EmptyString => true
  | String c s' =>
      if Ascii.eqb c "&" then
        existsb (λ tail, starts_with tail s') entity_tails && escaped_form s'
      else if Ascii.eqb c "<" then false
      else if Ascii.eqb c ">" then false
      else if Ascii.eqb c dq_char then false
      else if Ascii.eqb c "'" then false
      else escaped_form s'
  end.

(** The literal pieces of the article template. *)
Definition template_markup : list string :=
  [tpl_article_open; tpl_thumb_open; tpl_thumb_alt; tpl_thumb_close;
   tpl_content_open; tpl_link_attrs; tpl_headline_close; tpl_time_attr;
   tpl_time_close; tpl_source_close; tpl_author_open; tpl_author_close;
   tpl_meta_close; tpl_description_close; tpl_categories_open;
   tpl_category_open; tpl_category_close; tpl_categories_close;
   tpl_readmore_open; tpl_article_close].

(** The texts that the fields of an article hold. *)
Definition fields (a : Article) : list string :=
  [title a; String_of (link a); description a; source a; author a; thumbnail a]
  ++ categories a.

(** Where a piece of the output comes from: the template's own text, a date,
    or a field of one of the articles; a piece that comes from a field is
    written in escaped form. *)
Definition accounted_for (toLocaleDateString : Z → string)
    (articles : list Article) (c : Chunk) : Prop :=
  match c with
  | Markup s => s ∈ template_markup
  | DateText s =>
      ∃ a t, a ∈ articles ∧ pubDate a = DateObject (ValidDate t) ∧
             (s = toISOString t ∨ s = toLocaleDateString t)
  | Escaped field =>
      (∃ a, a ∈ articles ∧ field ∈ fields a) ∧
      escaped_form (render_chunk (Escaped field)) = true
  end.


(** ** Order of the articles *)

(** Non-increasing in [pubDate]: no article comes before one with a later
    date (of the articles that have a date). *)
Definition non_increasing_pubDate (l : list Article) : Prop :=
  ∀ i j a b ta tb,
    i < j → l !! i = Some a → l !! j = Some b →
    pubDate a = DateObject (ValidDate ta) →
    pubDate b = DateObject (ValidDate tb) →
    (tb ≤ ta)%Z.

(** Stable: for every date, the articles of that date are the same
    sequence before and after. *)
Definition keeps_order_of_equal_dates (input output : list Article) : Prop :=
  ∀ d, filter (λ a, pubDate a = d) output = filter (λ a, pubDate a = d) input.

(** Every article has a [Date] that is valid. *)
Definition all_dated (l : list Article) : Prop :=
  Forall (λ a, ∃ t, pubDate a = DateObject (ValidDate t)) l.


(** The time value of a dated article. *)
Definition time_of (a : Article) : Z :=
  match pubDate a with
  | DateObject (ValidDate t) => t
  | _ => 0%Z
  end.


(** ** Parsing *)

Section Parsed.
Variable Date_parse : string → JSDate.
Variable textContent_of : string → string.
Variable innerText_of : string → string.



End Parsed.




(** ** Fetching *)

Definition success_status (response : Response) : Prop :=
  (200 ≤ status response ≤ 299)%Z.

(** The fetch of a feed succeeded with [data]: the proxy answered with a
    success status and a body that is the JSON document [data]. *)
Definition fetch_succeeded (this : Self) (net : Network) (url : string)
    (data : FeedData) : Prop :=
  ∃ response,
    net (corsProxy this +:+ encodeURIComponent url) = Some response ∧
    success_status response ∧ body response = Some data.

(** The fetch of a feed failed: no answer, an answer whose status is no
    success, or a body that is no JSON document. *)
Definition fetch_failed (this : Self) (net : Network) (url : string) : Prop :=
  match net (corsProxy this +:+ encodeURIComponent url) with
  | None => True
  | Some response => ¬ success_status response ∨ body response = None
  end.

(** [fetchAllFeeds] keeps the successful responses and nothing else. *)
Definition keeps_successes_only (this : Self) (net : Network) : Prop :=
  (∀ url data, fetchFeed this net url = Some data ↔ fetch_succeeded this net url data) ∧
  (∀ url, fetchFeed this net url = None ↔ fetch_failed this net url) ∧
  fetchAllFeeds this net = Some <$> omap (fetchFeed this net) (feeds this) ∧
  ((∀ url, url ∈ feeds this → fetch_failed this net url) → fetchAllFeeds this net = []).

(** The end-to-end scenario: two feeds, of which [good] is answered with
    status 200 and a body of three items whose dates parse, and [bad] with
    status 500; the page has the container, the cache has nothing fresh, and
    the configuration shows at least three articles. *)
Record Scenario (Date_parse : string → JSDate) (this : Self) (net : Network)
    (t_read : Z) (b : Browser) (good bad : string) (data : FeedData)
    (failure : Response) : Prop := {
  two_feeds : feeds this = [good; bad] ∨ feeds this = [bad; good];
  good_response :
    net (corsProxy this +:+ encodeURIComponent good)
    = Some {| status := 200; body := Some data |};
  three_items : ∃ i1 i2 i3, items data = Some [i1; i2; i3];
  dates_parse :
    ∀ its item, items data = Some its → item ∈ its →
      ∃ t, new_Date Date_parse (item_pubDate item) = ValidDate t;
  bad_response : net (corsProxy this +:+ encodeURIComponent bad) = Some failure;
  bad_status : status failure = 500%Z;
  has_container : is_Some (elements b !! container this);
  cache_miss : getCachedArticles this t_read b = None;
  shows_three : (3 ≤ maxArticles this)%Z
}.

(** The page shows three articles: the container holds the cards of the
    three articles parsed from [data], in some order, and that is not the
    error placeholder. *)
Definition shows_three_articles (Date_parse : string → JSDate)
    (textContent_of innerText_of : string → string) (toLocaleDateString : Z → string)
    (this : Self) (data : FeedData) (result : Browser * Completion unit) : Prop :=
  ∃ a1 a2 a3 c1 c2 c3,
    [a1; a2; a3] ≡ₚ parseFeedItems Date_parse textContent_of innerText_of (Some data) ∧
    render <$> articleTemplate toLocaleDateString a1 = Normal c1 ∧
    render <$> articleTemplate toLocaleDateString a2 = Normal c2 ∧
    render <$> articleTemplate toLocaleDateString a3 = Normal c3 ∧
    result.2 = Normal () ∧
    elements result.1 !! container this = Some (join [c1; c2; c3]) ∧
    join [c1; c2; c3] ≠ error_html.


(** ** Further vocabulary *)

(** One of the five characters that [escapeHtml] replaces. *)
Definition is_special (c : ascii) : bool :=
  Ascii.eqb c "&" || Ascii.eqb c "<" || Ascii.eqb c ">" ||
  Ascii.eqb c dq_char || Ascii.eqb c "'".

Fixpoint has_special (s : string) : bool :=
  match s with
  | EmptyString => false
  | String c s' => is_special c || has_special s'
  end.


(** How often a literal piece of the template occurs among the pieces. *)
Definition is_markup (s : string) (c : Chunk) : bool :=
  match c with
  | Markup s' => String.eqb s' s
  | _ => false
  end.

Definition count_markup (s : string) (chunks : list Chunk) : nat :=
  length (filter (λ c, is_markup s c = true) chunks).

(** The article [c] is [a] with every field but [pubDate] as it was, and
    [pubDate] as JSON gives it back. *)
Definition cached_form (a c : Article) : Prop :=
  title c = title a ∧ link c = link a ∧ description c = description a ∧
  author c = author a ∧ thumbnail c = thumbnail a ∧
  categories c = categories a ∧ source c = source a ∧
  pubDate c = match pubDate a with
              | DateObject (ValidDate t) => DateISO (toISOString t)
              | DateObject InvalidDate => DateNull
              | other => other
              end.

(** Two pages differ at most in the content of the container and in the
    cache slot. *)
Definition same_but_feed (this : Self) (b b' : Browser) : Prop :=
  (∀ selector, selector ≠ container this →
     elements b' !! selector = elements b !! selector) ∧
  (∀ key, key ≠ "rss_cache" → localStorage b' !! key = localStorage b !! key) ∧
  storage_full b' = storage_full b ∧
  (is_Some (elements b' !! container this) ↔ is_Some (elements b !! container this)).

End Spec.

(** * The vocabulary of the properties of [AutoContentManager] *)
Module ContentSpec.
Import JS AutoContentManager.

(** ** Meta tags *)

Definition falsy (content : option string) : Prop :=
  match content with
  | Some c => truthy c = false
  | None => True
  end.

(** The tag carries the attribute/value pair and the content. *)
Definition carries (kind property content : string) (tag : Element) : Prop :=
  localName tag = "meta" ∧
  attributes tag !! toLowerCase kind = Some property ∧
  attributes tag !! "content" = Some content.

Definition matching_tags (kind property : string) (document : Document) : list Element :=
  filter (matches_selector kind property) document.

(** Find-or-create, then set: the call returns; on a document without a
    matching tag it appends one tag, which carries the pair and the content
    and is the only match afterwards; and a second call with the same
    arguments changes nothing. *)
Definition find_or_create (property content : string) (attributeType : option string)
    (document : Document) : Prop :=
  let kind := default "property" attributeType in
  ∃ updated,
    updateMetaTag property (Some content) attributeType document = Normal updated ∧
    (matching_tags kind property document = [] →
     ∃ tag, updated = document ++ [tag] ∧ carries kind property content tag ∧
            matching_tags kind property updated = [tag]) ∧
    updateMetaTag property (Some content) attributeType updated = Normal updated.

(** The arguments for which the selector is the one the embedding follows,
    and does not test the content itself. *)
Definition plain_pair (property : string) (attributeType : option string) : Prop :=
  plain_name (default "property" attributeType) = true ∧
  plain_value property = true ∧
  toLowerCase (default "property" attributeType) ≠ "content".

(** ** Keywords *)

Fixpoint all_lower (s : string) : bool :=
  match s with
  | EmptyString => true
  | String c s' => isLower c && all_lower s'
  end.

(** How often a word occurs in the text, as one of its words. *)
Definition occurrences (word text : string) : nat :=
  length (filter (λ w, w = word) (words text)).

(** The position of the first occurrence of a word in a list of words. *)
Fixpoint first_index (word : string) (l : list string) : nat :=
  match l with
  | [] => 0
  | w :: l' => if decide (w = word) then 0 else S (first_index word l')
  end.


(** The keywords are in the order of non-increasing frequency, and of two
    with the same frequency the one met first in the text comes first. *)
Definition ranked (text : string) (keywords : list string) : Prop :=
  ∀ i j u v, i < j → keywords !! i = Some u → keywords !! j = Some v →
    occurrences v text ≤ occurrences u text ∧
    (occurrences u text = occurrences v text →
     first_index u (words text) < first_index v (words text)).






(** ** Slugs *)

(** A character of a slug: a lower-case letter, a digit, an underscore or a
    hyphen. *)
Definition slug_char (c : ascii) : bool :=
  isLower c || isDigit c || (code c =? 95)%nat || isHyphen c.

(** No hyphen is followed by a hyphen. *)
Fixpoint no_double_hyphen (s : string) : bool :=
  match s with
  | String c (String d _ as s') => negb (isHyphen c && isHyphen d) && no_double_hyphen s'
  | _ => true
  end.

(** The first character is no hyphen. *)
Definition starts_plain (s : string) : bool :=
  match s with
  | String c _ => negb (isHyphen c)
  | EmptyString => true
  end.

Definition is_slug (s : string) : Prop :=
  string_forall slug_char s = true ∧ no_double_hyphen s = true.


(** ** What a call leaves of the document *)

(** The element is as it was, but for the value of one attribute. *)
Definition same_but (attr : string) (e e' : Element) : Prop :=
  localName e' = localName e ∧
  ∀ a, a ≠ attr → attributes e' !! a = attributes e !! a.

(** The document is as it was, element by element and in the same order,
    but for values of the attribute [attr]; after its elements come at most
    [n] new ones. *)
Definition extended (attr : string) (n : nat) (document updated : Document) : Prop :=
  ∃ old new,
    updated = old ++ new ∧ Forall2 (same_but attr) document old ∧ length new ≤ n.


(** ** Sitemap entries *)

(** The date of a time value as the ISO text begins with it: year, month
    and day of the month in UTC. *)
Definition date_part (t : Z) : string :=
  let '(y, m, d) := civil_from_days (t / msPerDay) in
  year_text y +:+ "-" +:+ pad 2 m +:+ "-" +:+ pad 2 d.

(** The text has no [T] in it. *)
Definition T_free (s : string) : bool :=
  string_forall (λ c, negb (Ascii.eqb c "T")) s.

(** What an entry says of its article, whose date has the time value [t]. *)
Definition entry_of (link : option string) (t : Z) (entry : SitemapEntry) : Prop :=
  loc entry = link ∧ lastmod entry = date_part t ∧
  changefreq entry = "daily" ∧ priority entry = "0.8".

End ContentSpec.

(** * Inputs of the examples *)
Module Demo.
Import JS RSSFetcher.

Definition defaults : Self := constructor (Build_Options None None None None None).

(** A date format for the examples: the engine's, for a browser in UTC that
    is asked about the first of January 1970. *)
Definition utc_format (t : Z) : string := "Jan 1, 1970".

Definition hostile : Article := {|
  title := "<script>alert('x')</script>";
  link := Some ("https://example.org/?a=1&b=" +:+ dq);
  description := "Tom & Jerry";
  pubDate := DateObject (ValidDate 0);
  author := "O'Neil";
  thumbnail := "";
  categories := ["<b>"; "news"];
  source := "Feed <1>"
|}.

Definition hostile_html : string :=
  Eval vm_compute in
    match generateArticleHTML utc_format defaults [hostile] with
    | Normal html => html
    | Throw _ => ""
    end.


(** A page with the container of the default configuration and nothing in
    local storage. *)
Definition empty_page : Browser := {|
  elements := {[ "#news-feed" := "" ]};
  localStorage := ∅;
  storage_full := false
|}.

(** [hostile] as [JSON.parse] gives it back. *)
Definition hostile_cached : Article := {|
  title := title hostile;
  link := link hostile;
  description := description hostile;
  pubDate := DateISO "1970-01-01T00:00:00.000Z";
  author := author hostile;
  thumbnail := thumbnail hostile;
  categories := categories hostile;
  source := source hostile
|}.

(** The page after [cacheArticles([hostile])] at time [1000]. *)
Definition cached_page : Browser := cacheArticles [hostile] 1000 empty_page.


Definition dated (name : string) (d : JSDate) : Article := {|
  title := name; link := None; description := ""; pubDate := DateObject d;
  author := "Unknown"; thumbnail := ""; categories := []; source := "Feed"
|}.

(** Three articles in feed order: the second has a date that did not
    parse. *)
Definition older : Article := dated "older" (ValidDate 1000).
Definition undated : Article := dated "undated" InvalidDate.
Definition newer : Article := dated "newer" (ValidDate 2000).
Definition twin : Article := dated "twin" (ValidDate 1000).


(** A date parser for the examples: it reads no text as a date. *)
Definition no_dates (s : string) : JSDate := InvalidDate.
(** An HTML parser for the examples, for texts without markup: the text
    content of such a text is the text. *)
Definition plain_text (s : string) : string := s.

Definition bare_item : Item := {|
  item_title := Some "  Kali 2024.1  ";
  item_link := Some "https://www.kali.org/blog/";
  item_description := None;
  item_pubDate := None;
  item_author := None;
  item_thumbnail := None;
  item_enclosure := Some {| enclosure_link := Some "https://www.kali.org/a.png" |};
  item_categories := None
|}.

(** A feed whose title is the empty text. *)
Definition untitled_feed : FeedData := {|
  items := Some [bare_item];
  feed := Some {| feed_title := Some "" |}
|}.



(** The scenario of two feeds: a date parser that reads every text as the
    epoch, a fetcher with the two feeds, and a network that answers the
    first with three items and the second with status 500. *)
Definition epoch_parser (s : string) : JSDate := ValidDate 0.

Definition dated_item (name : string) : Item := {|
  item_title := Some name;
  item_link := Some "https://www.kali.org/blog/";
  item_description := Some "News";
  item_pubDate := Some "2024-01-15 10:30:00";
  item_author := None;
  item_thumbnail := None;
  item_enclosure := None;
  item_categories := None
|}.

Definition three_items : FeedData := {|
  items := Some [dated_item "one"; dated_item "two"; dated_item "three"];
  feed := Some {| feed_title := Some "Kali Linux" |}
|}.

Definition good_feed : string := "https://www.kali.org/rss.xml".
Definition bad_feed : string := "https://gbhackers.com/feed/".

Definition two_feeds : Self :=
  constructor (Build_Options None (Some [good_feed; bad_feed]) None None None).

Definition server_error : Response := {| status := 500; body := None |}.

Definition half_down : Network := λ url,
  if decide (url = corsProxy two_feeds +:+ encodeURIComponent good_feed)
  then Some {| status := 200; body := Some three_items |}
  else Some server_error.


(** The pieces of the card of [hostile]. *)
Definition hostile_chunks : list Chunk :=
  match articleTemplate utc_format hostile with
  | Normal chunks => chunks
  | Throw _ => []
  end.



End Demo.

(** * Properties of the built-ins *)
Module JSProps.
Import JS.

Section ArraySort.
Context {A : Type}.
Implicit Types (comparefn : A → A → option Z) (l : list A).

Lemma insert_sorted_perm comparefn x l : insert_sorted comparefn x l ≡ₚ x :: l.
Proof.
  induction l as [|y l IH]; cbn; [done |].
  destruct (SortCompare comparefn x y <=? 0)%Z; [done |].
  by rewrite IH, Permutation_swap.
Qed.

Lemma Array_sort_perm comparefn l : Array_sort comparefn l ≡ₚ l.
Proof.
  induction l as [|x l IH]; cbn; [done |].
  by rewrite insert_sorted_perm, IH.
Qed.

Lemma insert_sorted_ext c1 c2 x l :
  (∀ y, y ∈ l → c1 x y = c2 x y) →
  insert_sorted c1 x l = insert_sorted c2 x l.
Proof.
  induction l as [|y l IH]; intros Hc; cbn; [done |].
  unfold SortCompare. rewrite (Hc y) by left.
  rewrite IH; [done |]. intros z Hz. apply Hc. by right.
Qed.

(** The sort reads the comparator on the elements of the array only. *)
Lemma Array_sort_ext c1 c2 l :
  (∀ x y, x ∈ l → y ∈ l → c1 x y = c2 x y) →
  Array_sort c1 l = Array_sort c2 l.
Proof.
  induction l as [|x l IH]; intros Hc; cbn; [done |].
  rewrite IH by (intros; apply Hc; by right).
  apply insert_sorted_ext. intros y Hy. apply Hc; [left |].
  right. by rewrite <-(Array_sort_perm c2 l).
Qed.

(** A comparator [(a, b) => key(b) - key(a)]: descending by [key]. *)
Section Descending.
Variable key : A → Z.
Let by_key (x y : A) : option Z := Some (key y - key x)%Z.
Let desc (x y : A) : Prop := (key y ≤ key x)%Z.

Lemma SortCompare_by_key x y : SortCompare by_key x y = (key y - key x)%Z.
Proof. reflexivity. Qed.

Lemma insert_sorted_desc x l :
  StronglySorted desc l → StronglySorted desc (insert_sorted by_key x l).
Proof.
  induction 1 as [|y l Hl IH Hy]; cbn [insert_sorted].
  - repeat constructor.
  - rewrite SortCompare_by_key.
    destruct (Z.leb_spec (key y - key x) 0).
    + constructor; [by constructor |].
      constructor; [unfold desc; lia |].
      eapply Forall_impl; [exact Hy |]. unfold desc. intros; cbn in *; lia.
    + constructor; [exact IH |].
      rewrite insert_sorted_perm. constructor; [unfold desc; lia | exact Hy].
Qed.

Lemma Array_sort_desc l : StronglySorted desc (Array_sort by_key l).
Proof.
  induction l as [|x l IH]; cbn [Array_sort]; [constructor | by apply insert_sorted_desc].
Qed.

(** Stability: the elements picked by a property that fixes the key keep
    their order. *)
Lemma insert_sorted_filter (P : A → Prop) `{!∀ x, Decision (P x)} x l :
  (∀ y z, P y → P z → key y = key z) →
  filter P (insert_sorted by_key x l) = filter P (x :: l).
Proof.
  intros HP. induction l as [|y l IH]; cbn [insert_sorted]; [done |].
  rewrite SortCompare_by_key.
  destruct (Z.leb_spec (key y - key x) 0); [done |].
  rewrite filter_cons, IH, !filter_cons.
  destruct (decide (P y)) as [Hy|]; [|done].
  destruct (decide (P x)) as [Hx|]; [|done].
  specialize (HP _ _ Hx Hy). lia.
Qed.

Lemma Array_sort_filter (P : A → Prop) `{!∀ x, Decision (P x)} l :
  (∀ y z, P y → P z → key y = key z) →
  filter P (Array_sort by_key l) = filter P l.
Proof.
  intros HP. induction l as [|x l IH]; cbn [Array_sort]; [done |].
  rewrite insert_sorted_filter by done. by rewrite !filter_cons, IH.
Qed.
End Descending.
End ArraySort.

Lemma StronglySorted_lookup {A} (R : A → A → Prop) l i j x y :
  StronglySorted R l → i < j → l !! i = Some x → l !! j = Some y → R x y.
Proof.
  intros Hl. revert i j. induction Hl as [|z l Hl IH Hz]; intros i j Hij Hi Hj.
  - by rewrite lookup_nil in Hi.
  - destruct j as [|j]; [lia |]. cbn in Hj.
    destruct i as [|i]; cbn in Hi.
    + injection Hi as ->. rewrite Forall_forall in Hz.
      apply Hz. by eapply list_elem_of_lookup_2.
    + apply (IH i j); [lia | done..].
Qed.

Lemma slice0_subseteq {A} n (l : list A) : slice0 n l ⊆ l.
Proof.
  unfold slice0. destruct (0 <=? n)%Z; apply sublist_subseteq, sublist_take.
Qed.


Lemma slice0_all {A} (n : Z) (l : list A) :
  (Z.of_nat (length l) ≤ n)%Z → slice0 n l = l.
Proof.
  intros Hn. unfold slice0. destruct (Z.leb_spec 0 n); [|lia].
  apply take_ge. lia.
Qed.

End JSProps.

(** * Properties of [RSSFetcher] *)
Module RSSFetcherProps.
Import JS RSSFetcher Spec JSProps.

(** ** Strings and completions *)

Lemma append_nil (s : string) : "" +:+ s = s.
Proof. reflexivity. Qed.

Lemma append_cons c (s1 s2 : string) : String c s1 +:+ s2 = String c (s1 +:+ s2).
Proof. reflexivity. Qed.

Lemma append_assoc (s1 s2 s3 : string) : (s1 +:+ s2) +:+ s3 = s1 +:+ (s2 +:+ s3).
Proof.
  induction s1 as [|c s1 IH]; [done |].
  rewrite !append_cons. by f_equal.
Qed.

Lemma join_app (l1 l2 : list string) : join (l1 ++ l2) = join l1 +:+ join l2.
Proof.
  induction l1 as [|s l1 IH]; [done |].
  change (s +:+ join (l1 ++ l2) = (s +:+ join l1) +:+ join l2).
  by rewrite IH, append_assoc.
Qed.

Lemma render_app (c1 c2 : list Chunk) : render (c1 ++ c2) = render c1 +:+ render c2.
Proof. unfold render. by rewrite fmap_app, join_app. Qed.

Lemma render_concat (cs : list (list Chunk)) : join (render <$> cs) = render (concat cs).
Proof.
  induction cs as [|c cs IH]; [done |].
  change (render c +:+ join (render <$> cs) = render (c ++ concat cs)).
  by rewrite render_app, IH.
Qed.

Lemma map_throwing_Normal {A B} (f : A → Completion B) l ys :
  map_throwing f l = Normal ys → Forall2 (λ x y, f x = Normal y) l ys.
Proof.
  revert ys. induction l as [|x l IH]; simpl; intros ys H.
  - injection H as <-. constructor.
  - destruct (f x) as [y|e] eqn:Hx; simpl in H; [|discriminate].
    destruct (map_throwing f l) as [ys'|e] eqn:Hl; simpl in H; [|discriminate].
    injection H as <-. constructor; auto.
Qed.

Lemma map_throwing_total {A B} (f : A → Completion B) l :
  Forall (λ x, ∃ y, f x = Normal y) l → ∃ ys, map_throwing f l = Normal ys.
Proof.
  induction 1 as [|x l [y Hy] _ [ys IH]]; simpl; [by eexists |].
  rewrite Hy, IH. simpl. by eexists.
Qed.

(** ** [escapeHtml] *)

Lemma escaped_form_escapeHtml text : escaped_form (escapeHtml text) = true.
Proof.
  induction text as [|m text IH]; [done |].
  cbn [escapeHtml]. unfold escape_char.
  destruct (Ascii.eqb m "&") eqn:E1; [rewrite !append_cons, append_nil; exact IH |].
  destruct (Ascii.eqb m "<") eqn:E2; [rewrite !append_cons, append_nil; exact IH |].
  destruct (Ascii.eqb m ">") eqn:E3; [rewrite !append_cons, append_nil; exact IH |].
  destruct (Ascii.eqb m dq_char) eqn:E4; [rewrite !append_cons, append_nil; exact IH |].
  destruct (Ascii.eqb m "'") eqn:E5; [rewrite !append_cons, append_nil; exact IH |].
  rewrite append_cons, append_nil. cbn [escaped_form].
  by rewrite E1, E2, E3, E4, E5.
Qed.


Ltac in_list := repeat first [apply list_elem_of_here | apply list_elem_of_further].

Lemma articleTemplate_accounted fmt articles a chunks :
  a ∈ articles →
  articleTemplate fmt a = Normal chunks →
  Forall (accounted_for fmt articles) chunks.
Proof.
  intros Ha. unfold articleTemplate.
  destruct (pubDate a) as [[t|]| |] eqn:Hd; cbn; try discriminate.
  intros [= <-].
  assert (Hfield : ∀ f, f ∈ fields a → accounted_for fmt articles (Escaped f)).
  { intros f Hf. split; [by exists a | apply escaped_form_escapeHtml]. }
  assert (Hmark : ∀ s, s ∈ template_markup → accounted_for fmt articles (Markup s)) by done.
  assert (Hdate : ∀ s, s = toISOString t ∨ s = fmt t → accounted_for fmt articles (DateText s)).
  { intros s Hs. by exists a, t. }
  repeat first
    [ apply Forall_app; split | apply Forall_cons; split | apply Forall_nil
    | case_bool_decide | destruct (truthy _) ];
    try (apply Hmark; unfold template_markup; in_list);
    try (apply Hdate; auto; fail);
    try (apply Hfield; unfold fields; in_list; fail).
  all: try done.
  all: apply Forall_bind, Forall_forall; intros cat Hcat.
  all: repeat (apply Forall_cons; split); try (by apply Forall_nil);
    try (apply Hmark; unfold template_markup; in_list).
  all: apply Hfield; unfold fields; apply elem_of_app; right;
    apply (slice0_subseteq 3%Z (categories a)), Hcat.
Qed.

Lemma generateArticleHTML_cards fmt this articles html :
  generateArticleHTML fmt this articles = Normal html →
  ∃ chunkss,
    Forall2 (λ a cs, articleTemplate fmt a = Normal cs)
      (slice0 (maxArticles this) articles) chunkss ∧
    html = render (concat chunkss).
Proof.
  unfold generateArticleHTML.
  destruct (map_throwing _ _) as [cards|e] eqn:Hcards; cbn; [|discriminate].
  intros [= <-]. apply map_throwing_Normal in Hcards.
  induction Hcards as [|a card l cards Ha _ (chunkss & Hall & Heq)].
  - by exists [].
  - destruct (articleTemplate fmt a) as [cs|e] eqn:Hcs; cbn in Ha; [|discriminate].
    injection Ha as <-. exists (cs :: chunkss). split; [by constructor |].
    change (render cs +:+ join cards = render (cs ++ concat chunkss)).
    by rewrite render_app, Heq.
Qed.

Lemma generateArticleHTML_total fmt this articles :
  Forall (λ a, ∃ t, pubDate a = DateObject (ValidDate t)) articles →
  ∃ html, generateArticleHTML fmt this articles = Normal html.
Proof.
  intros Hvalid. unfold generateArticleHTML.
  destruct (map_throwing_total (λ article, render <$> articleTemplate fmt article)
              (slice0 (maxArticles this) articles)) as [cards ->].
  - eapply Forall_forall. intros a Ha%slice0_subseteq.
    rewrite Forall_forall in Hvalid. destruct (Hvalid a Ha) as [t Ht].
    unfold articleTemplate. rewrite Ht. cbn. by eexists.
  - cbn. by eexists.
Qed.

(** C1. Whatever [generateArticleHTML] returns is the text of a sequence of
    pieces, each of which is literal text of the template, a text computed
    from a [pubDate], or [escapeHtml] of a field (title, link, description,
    source, author, thumbnail or a category) of one of the articles; and
    such a piece is in escaped form: none of the characters [<], [>], the
    double quote and the apostrophe occurs in it, and every [&] in it starts
    one of [&amp;], [&lt;], [&gt;], [&quot;], [&#039;]. *)
Theorem generateArticleHTML_escapes_fields fmt this articles html :
  generateArticleHTML fmt this articles = Normal html →
  ∃ chunks, html = render chunks ∧ Forall (accounted_for fmt articles) chunks.
Proof.
  intros (chunkss & Hall & ->)%generateArticleHTML_cards.
  exists (concat chunkss). split; [done |].
  apply Forall_concat.
  assert (Hsub : slice0 (maxArticles this) articles ⊆ articles)
    by apply slice0_subseteq.
  induction Hall as [|a cs l chunkss Hcs _ IH]; [by apply Forall_nil |].
  apply Forall_cons. split.
  - eapply articleTemplate_accounted; [|exact Hcs]. apply Hsub. left.
  - apply IH. intros x Hx. apply Hsub. by right.
Qed.

Lemma generateArticleHTML_escapes_fields_witness :
  ∃ chunks, Demo.hostile_html = render chunks ∧
            Forall (accounted_for Demo.utc_format [Demo.hostile]) chunks.
Proof.
  apply (generateArticleHTML_escapes_fields Demo.utc_format Demo.defaults
           [Demo.hostile] Demo.hostile_html).
  vm_compute. reflexivity.
Defined.


(** ** The cache *)

Lemma cacheArticles_stores articles now b :
  storage_full b = false →
  localStorage (cacheArticles articles now b) !! "rss_cache"
  = Some (CacheRecord (Article_toJSON <$> articles) now).
Proof.
  intros Hfull. unfold cacheArticles, setItem. rewrite Hfull. cbn.
  apply lookup_insert_eq.
Qed.

Lemma cacheArticles_full articles now b :
  storage_full b = true → cacheArticles articles now b = b.
Proof. intros Hfull. unfold cacheArticles, setItem. by rewrite Hfull. Qed.

Lemma Article_toJSON_fields a :
  title (Article_toJSON a) = title a ∧ link (Article_toJSON a) = link a ∧
  description (Article_toJSON a) = description a ∧
  author (Article_toJSON a) = author a ∧
  thumbnail (Article_toJSON a) = thumbnail a ∧
  categories (Article_toJSON a) = categories a ∧
  source (Article_toJSON a) = source a.
Proof. done. Qed.

Lemma Article_toJSON_pubDate a d :
  pubDate a = DateObject d → Article_toJSON a ≠ a.
Proof.
  intros Hd Heq. apply (f_equal pubDate) in Heq. cbn in Heq.
  rewrite Hd in Heq. by destruct d.
Qed.

Lemma getCachedArticles_record this now b articles timestamp :
  localStorage b !! "rss_cache" = Some (CacheRecord articles timestamp) →
  getCachedArticles this now b
  = if bool_decide (now - timestamp < updateInterval this)%Z then Some articles else None.
Proof.
  intros Hslot. unfold getCachedArticles. rewrite Hslot. cbn zeta.
  destruct (Z.ltb_spec (now - timestamp) (updateInterval this));
    case_bool_decide; done || lia.
Qed.

(** C7. When local storage holds a cache record, [getCachedArticles]
    returns the articles of the record if [now - timestamp] is strictly less
    than [updateInterval], and [null] otherwise. *)
Theorem getCachedArticles_expiry this now b articles timestamp :
  localStorage b !! "rss_cache" = Some (CacheRecord articles timestamp) →
  ((now - timestamp < updateInterval this)%Z →
     getCachedArticles this now b = Some articles) ∧
  (¬ (now - timestamp < updateInterval this)%Z →
     getCachedArticles this now b = None).
Proof.
  intros Hslot. rewrite (getCachedArticles_record _ _ _ _ _ Hslot).
  split; intros; by case_bool_decide.
Qed.

Lemma getCachedArticles_expiry_witness :
  getCachedArticles Demo.defaults 3600999 Demo.cached_page = Some [Demo.hostile_cached] ∧
  getCachedArticles Demo.defaults 3601000 Demo.cached_page = None.
Proof.
  split.
  - apply (getCachedArticles_expiry Demo.defaults 3600999 Demo.cached_page
             [Demo.hostile_cached] 1000); [vm_compute; reflexivity | vm_compute; reflexivity].
  - apply (getCachedArticles_expiry Demo.defaults 3601000 Demo.cached_page
             [Demo.hostile_cached] 1000); [vm_compute; reflexivity |].
    vm_compute. intros H. discriminate H.
Defined.

(** What a read gives back after a write, before the record expires: the
    articles as [JSON.parse] rebuilds them. *)
Lemma cacheArticles_getCachedArticles this articles t0 now b :
  storage_full b = false →
  (now - t0 < updateInterval this)%Z →
  getCachedArticles this now (cacheArticles articles t0 b)
  = Some (Article_toJSON <$> articles).
Proof.
  intros Hfull Hfresh.
  rewrite (getCachedArticles_record this now _ _ t0 (cacheArticles_stores _ _ _ Hfull)).
  by case_bool_decide.
Qed.


(** The sequence read back differs from the one stored as soon as one
    article holds a [Date]. *)
Lemma cache_roundtrip_differs this articles t0 now b a d :
  storage_full b = false →
  (now - t0 < updateInterval this)%Z →
  a ∈ articles → pubDate a = DateObject d →
  getCachedArticles this now (cacheArticles articles t0 b) ≠ Some articles.
Proof.
  intros Hfull Hfresh Ha Hd.
  rewrite cacheArticles_getCachedArticles by done. intros [= Heq].
  apply list_elem_of_lookup in Ha as [i Hi].
  apply (f_equal (λ l, l !! i)) in Heq.
  rewrite list_lookup_fmap, Hi in Heq. injection Heq as Heq.
  by apply (Article_toJSON_pubDate a d).
Qed.

(** C2. Storing one article whose [pubDate] is a [Date] and reading the cache
    back one second later returns an article that differs from the stored
    one: its [pubDate] is the ISO text of the date.  The template, which
    calls [toISOString] on [pubDate], renders the stored article and throws
    a [TypeError] on the one read back, so that [displayArticles] leaves the
    page on its loading placeholder when it finds that cache. *)
Theorem cache_roundtrip_changes_pubDate :
  getCachedArticles Demo.defaults 2000 (cacheArticles [Demo.hostile] 1000 Demo.empty_page)
  = Some [Demo.hostile_cached] ∧
  Demo.hostile_cached ≠ Demo.hostile ∧
  generateArticleHTML Demo.utc_format Demo.defaults [Demo.hostile]
  = Normal Demo.hostile_html ∧
  (∀ fmt, generateArticleHTML fmt Demo.defaults [Demo.hostile_cached] = Throw TypeError) ∧
  (∀ Date_parse textContent_of innerText_of fmt net,
     displayArticles Date_parse textContent_of innerText_of fmt Demo.defaults net
       2000 2000 Demo.cached_page
     = (set_innerHTML "#news-feed" loading_html Demo.cached_page, Throw TypeError)).
Proof.
  split; [by vm_compute |]. split; [discriminate |].
  split; [by vm_compute |]. split; [reflexivity |].
  intros. by vm_compute.
Qed.


(** ** [sortArticlesByDate] *)

Lemma compareByDate_dated a b :
  (∃ t, pubDate a = DateObject (ValidDate t)) →
  (∃ t, pubDate b = DateObject (ValidDate t)) →
  compareByDate a b = Some (time_of b - time_of a)%Z.
Proof.
  intros [ta Ha] [tb Hb]. unfold compareByDate, time_of. by rewrite Ha, Hb.
Qed.

Lemma Array_sort_dated contents :
  all_dated contents →
  Array_sort compareByDate contents
  = Array_sort (λ a b, Some (time_of b - time_of a)%Z) contents.
Proof.
  intros Hvalid. apply Array_sort_ext. intros a b Ha Hb.
  unfold all_dated in Hvalid. rewrite Forall_forall in Hvalid.
  apply compareByDate_dated; auto.
Qed.

Lemma sortArticlesByDate_contents heap articles contents :
  heap !! articles = Some contents →
  sortArticlesByDate articles heap
  = (articles, <[articles := Array_sort compareByDate contents]> heap).
Proof. intros H. unfold sortArticlesByDate. by rewrite H. Qed.

Lemma sorted_fresh_contents contents :
  sorted_fresh contents = Array_sort compareByDate contents.
Proof.
  unfold sorted_fresh.
  rewrite (sortArticlesByDate_contents {[ 0 := contents ]} 0 contents)
    by apply lookup_singleton_eq.
  by rewrite lookup_insert_eq.
Qed.

(** C3 (amended). When every article of the array has a valid date,
    [sortArticlesByDate] leaves the array non-increasing in [pubDate], and
    the articles of one date in the order they had. *)
Theorem sortArticlesByDate_sorted_stable heap articles contents :
  heap !! articles = Some contents →
  all_dated contents →
  ∃ sorted,
    (sortArticlesByDate articles heap).2 !! (sortArticlesByDate articles heap).1
    = Some sorted ∧
    non_increasing_pubDate sorted ∧
    keeps_order_of_equal_dates contents sorted.
Proof.
  intros Hheap Hvalid. rewrite (sortArticlesByDate_contents _ _ _ Hheap). cbn.
  eexists. split; [apply lookup_insert_eq |].
  rewrite Array_sort_dated by done. split.
  - intros i j a b ta tb Hij Hi Hj Ha Hb.
    pose proof (StronglySorted_lookup _ _ i j a b (Array_sort_desc time_of contents)
                  Hij Hi Hj) as Hle.
    cbn in Hle. unfold time_of in Hle. by rewrite Ha, Hb in Hle.
  - intros d. apply (Array_sort_filter time_of (λ a, pubDate a = d)).
    intros y z Hy Hz. unfold time_of. by rewrite Hy, Hz.
Qed.

Lemma sortArticlesByDate_sorted_stable_witness :
  ∃ sorted,
    (sortArticlesByDate 0 {[ 0 := [Demo.older; Demo.newer; Demo.twin] ]}).2
      !! (sortArticlesByDate 0 {[ 0 := [Demo.older; Demo.newer; Demo.twin] ]}).1
    = Some sorted ∧
    non_increasing_pubDate sorted ∧
    keeps_order_of_equal_dates [Demo.older; Demo.newer; Demo.twin] sorted.
Proof.
  apply (sortArticlesByDate_sorted_stable
           {[ 0 := [Demo.older; Demo.newer; Demo.twin] ]} 0
           [Demo.older; Demo.newer; Demo.twin]).
  - reflexivity.
  - repeat constructor; by eexists.
Defined.

(** C3, as stated, fails on an array that holds an article without a valid
    date: the comparator answers [NaN] next to it, the sort leaves the three
    articles where they are, and the older one stays before the newer. *)
Lemma sortArticlesByDate_undated_unsorted :
  (sortArticlesByDate 0 {[ 0 := [Demo.older; Demo.undated; Demo.newer] ]}).2 !! 0
  = Some [Demo.older; Demo.undated; Demo.newer] ∧
  ¬ non_increasing_pubDate [Demo.older; Demo.undated; Demo.newer].
Proof.
  split; [by vm_compute |].
  intros H.
  assert (2000 ≤ 1000)%Z; [|lia].
  by apply (H 0 2 Demo.older Demo.newer); [lia | ..].
Qed.



Example sortArticlesByDate_reorders :
  sortArticlesByDate 0 {[ 0 := [Demo.older; Demo.newer] ]}
  = (0, {[ 0 := [Demo.newer; Demo.older] ]}).
Proof. by vm_compute. Qed.


(** ** [parseFeedItems] *)






Example parseFeedItems_bare_item :
  parseFeedItems Demo.no_dates Demo.plain_text Demo.plain_text (Some Demo.untitled_feed)
  = [{| title := "Kali 2024.1"; link := Some "https://www.kali.org/blog/";
        description := ""; pubDate := DateObject InvalidDate; author := "Unknown";
        thumbnail := "https://www.kali.org/a.png"; categories := [];
        source := "External Source" |}].
Proof. reflexivity. Qed.


(** ** [fetchAllFeeds] and [displayArticles] *)

Lemma ok_success_status response : ok response = true ↔ success_status response.
Proof.
  unfold ok, success_status. rewrite andb_true_iff, !Z.leb_le. tauto.
Qed.

Lemma fetchFeed_Some this net url data :
  fetchFeed this net url = Some data ↔ fetch_succeeded this net url data.
Proof.
  unfold fetchFeed, fetch_succeeded.
  destruct (net _) as [response|]; [|split; [done | by intros (? & ? & _)]].
  destruct (ok response) eqn:Hok; cbn [negb].
  - apply ok_success_status in Hok. split.
    + destruct (body response) eqn:Hb; [|done]. intros [= ->]. by exists response.
    + intros (r & [= <-] & _ & ->). done.
  - split; [done |]. intros (r & [= <-] & Hs%ok_success_status & _). congruence.
Qed.

Lemma fetchFeed_None this net url :
  fetchFeed this net url = None ↔ fetch_failed this net url.
Proof.
  unfold fetchFeed, fetch_failed.
  destruct (net _) as [response|]; [|done].
  destruct (ok response) eqn:Hok; cbn [negb].
  - apply ok_success_status in Hok. destruct (body response); split; try done; tauto.
  - split; [|done]. intros _. left. rewrite <-ok_success_status. congruence.
Qed.

Lemma fetchAllFeeds_omap this net :
  fetchAllFeeds this net = Some <$> omap (fetchFeed this net) (feeds this).
Proof.
  unfold fetchAllFeeds. induction (feeds this) as [|url urls IH]; [done |].
  cbn [map]. rewrite filter_cons, IH.
  assert (Hc : omap (fetchFeed this net) (url :: urls)
               = match fetchFeed this net url with
                 | Some data => data :: omap (fetchFeed this net) urls
                 | None => omap (fetchFeed this net) urls
                 end) by done.
  rewrite Hc. destruct (fetchFeed this net url); by case_decide.
Qed.

Lemma fetchAllFeeds_keeps_successes_only this net : keeps_successes_only this net.
Proof.
  split; [apply fetchFeed_Some |]. split; [apply fetchFeed_None |].
  split; [apply fetchAllFeeds_omap |].
  intros Hfail. rewrite fetchAllFeeds_omap.
  induction (feeds this) as [|url urls IH]; [done |].
  assert (Hc : omap (fetchFeed this net) (url :: urls)
               = match fetchFeed this net url with
                 | Some data => data :: omap (fetchFeed this net) urls
                 | None => omap (fetchFeed this net) urls
                 end) by done.
  rewrite Hc, (proj2 (fetchFeed_None this net url)) by (apply Hfail; left).
  apply IH. intros u Hu. apply Hfail. by right.
Qed.

Lemma fetchAllFeeds_scenario Date_parse this net t_read b good bad data failure :
  Scenario Date_parse this net t_read b good bad data failure →
  fetchAllFeeds this net = [Some data].
Proof.
  intros S. rewrite fetchAllFeeds_omap.
  assert (Hgood : fetchFeed this net good = Some data).
  { apply fetchFeed_Some. eexists. split; [apply (good_response _ _ _ _ _ _ _ _ _ S) |].
    split; [unfold success_status; cbn; lia | done]. }
  assert (Hbad : fetchFeed this net bad = None).
  { apply fetchFeed_None. unfold fetch_failed.
    rewrite (bad_response _ _ _ _ _ _ _ _ _ S). left. unfold success_status.
    rewrite (bad_status _ _ _ _ _ _ _ _ _ S). lia. }
  destruct (two_feeds _ _ _ _ _ _ _ _ _ S) as [-> | ->]; cbn; by rewrite Hgood, Hbad.
Qed.

Lemma tpl_article_open_starts : ∃ rest, tpl_article_open = String "010" rest.
Proof. eexists. vm_compute. reflexivity. Qed.

Lemma articleTemplate_dated fmt a :
  (∃ t, pubDate a = DateObject (ValidDate t)) →
  ∃ rest, render <$> articleTemplate fmt a = Normal (String "010" rest).
Proof.
  intros [t Ht]. unfold articleTemplate. rewrite Ht. cbn.
  destruct tpl_article_open_starts as [rest ->].
  eexists. f_equal.
Qed.

Lemma getCachedArticles_set_innerHTML this now selector html b :
  getCachedArticles this now (set_innerHTML selector html b) = getCachedArticles this now b.
Proof. reflexivity. Qed.

Lemma elements_cacheArticles articles now b :
  elements (cacheArticles articles now b) = elements b.
Proof. unfold cacheArticles, setItem. by destruct (storage_full b). Qed.

Lemma all_dated_parseFeedItems Date_parse textContent_of innerText_of data :
  (∀ its item, items data = Some its → item ∈ its →
     ∃ t, new_Date Date_parse (item_pubDate item) = ValidDate t) →
  all_dated (parseFeedItems Date_parse textContent_of innerText_of (Some data)).
Proof.
  intros Hdates. unfold parseFeedItems, all_dated.
  destruct (items data) as [its|] eqn:Hits; [|constructor].
  apply Forall_fmap, Forall_forall. intros item Hitem. cbn.
  destruct (Hdates its item eq_refl Hitem) as [t ->]. by exists t.
Qed.

Lemma displayArticles_scenario Date_parse textContent_of innerText_of toLocaleDateString
    this net t_read t_write b good bad data failure :
  Scenario Date_parse this net t_read b good bad data failure →
  shows_three_articles Date_parse textContent_of innerText_of toLocaleDateString this data
    (displayArticles Date_parse textContent_of innerText_of toLocaleDateString
       this net t_read t_write b).
Proof.
  intros S. unfold displayArticles.
  destruct (has_container _ _ _ _ _ _ _ _ _ S) as [old ->].
  rewrite getCachedArticles_set_innerHTML, (cache_miss _ _ _ _ _ _ _ _ _ S).
  rewrite (fetchAllFeeds_scenario _ _ _ _ _ _ _ _ _ S).
  rewrite bool_decide_eq_false_2 by done. cbn [foldl app].
  rewrite sorted_fresh_contents.
  set (parsed := parseFeedItems Date_parse textContent_of innerText_of (Some data)).
  assert (Hdated : all_dated parsed)
    by apply all_dated_parseFeedItems, (dates_parse _ _ _ _ _ _ _ _ _ S).
  assert (Hlen : length parsed = 3).
  { destruct (three_items _ _ _ _ _ _ _ _ _ S) as (i1 & i2 & i3 & Hits).
    unfold parsed, parseFeedItems. by rewrite Hits. }
  pose proof (Array_sort_perm compareByDate parsed) as Hperm.
  set (sorted := Array_sort compareByDate parsed) in *.
  assert (Hsdated : all_dated sorted) by (unfold all_dated; by rewrite Hperm).
  assert (Hslen : length sorted = 3) by by rewrite Hperm.
  destruct sorted as [|a1 [|a2 [|a3 [|]]]]; try discriminate Hslen.
  unfold all_dated in Hsdated. rewrite !Forall_cons in Hsdated.
  destruct Hsdated as (H1 & H2 & H3 & _).
  destruct (articleTemplate_dated toLocaleDateString a1 H1) as [r1 Hc1].
  destruct (articleTemplate_dated toLocaleDateString a2 H2) as [r2 Hc2].
  destruct (articleTemplate_dated toLocaleDateString a3 H3) as [r3 Hc3].
  exists a1, a2, a3, (String "010" r1), (String "010" r2), (String "010" r3).
  split; [done |]. do 3 (split; [done |]).
  unfold generateArticleHTML.
  rewrite slice0_all by (cbn; pose proof (shows_three _ _ _ _ _ _ _ _ _ S); lia).
  cbn [map_throwing]. rewrite Hc1, Hc2, Hc3. cbn.
  split; [done |]. split; [apply lookup_insert_eq |].
  discriminate.
Qed.

(** C5. [fetchAllFeeds] returns the responses of the feeds whose fetch
    succeeded, in the order of the feeds, and drops every failed fetch (no
    answer, a status that is no success, a body that is no JSON document);
    when every fetch fails the result is empty.  With two feeds of which one
    is answered with three items and the other with status 500, it returns
    that one response, and [displayArticles] fills the container with the
    cards of the three articles, not with the error placeholder. *)
Theorem fetchAllFeeds_discards_failures Date_parse textContent_of innerText_of
    toLocaleDateString this net t_read t_write b good bad data failure :
  keeps_successes_only this net ∧
  (Scenario Date_parse this net t_read b good bad data failure →
   fetchAllFeeds this net = [Some data] ∧
   shows_three_articles Date_parse textContent_of innerText_of toLocaleDateString this data
     (displayArticles Date_parse textContent_of innerText_of toLocaleDateString
        this net t_read t_write b)).
Proof.
  split; [apply fetchAllFeeds_keeps_successes_only |].
  intros S. split; [by eapply fetchAllFeeds_scenario |].
  by eapply displayArticles_scenario.
Qed.

Lemma fetchAllFeeds_discards_failures_witness :
  fetchAllFeeds Demo.two_feeds Demo.half_down = [Some Demo.three_items] ∧
  shows_three_articles Demo.epoch_parser Demo.plain_text Demo.plain_text Demo.utc_format
    Demo.two_feeds Demo.three_items
    (displayArticles Demo.epoch_parser Demo.plain_text Demo.plain_text Demo.utc_format
       Demo.two_feeds Demo.half_down 0 0 Demo.empty_page).
Proof.
  apply (fetchAllFeeds_discards_failures Demo.epoch_parser Demo.plain_text Demo.plain_text
           Demo.utc_format Demo.two_feeds Demo.half_down 0 0 Demo.empty_page
           Demo.good_feed Demo.bad_feed Demo.three_items Demo.server_error).
  constructor.
  - left. reflexivity.
  - vm_compute. reflexivity.
  - by eexists _, _, _.
  - intros its item [= <-] Hin.
    repeat (apply elem_of_cons in Hin as [-> | Hin]); try (by exists 0%Z).
    by apply elem_of_nil in Hin.
  - vm_compute. reflexivity.
  - reflexivity.
  - eexists. vm_compute. reflexivity.
  - reflexivity.
  - vm_compute. discriminate.
Defined.

End RSSFetcherProps.

(** * Properties of [AutoContentManager] *)
Module AutoContentManagerProps.
Import JS AutoContentManager ContentSpec JSProps.


(** ** [updateMetaTag] *)

Lemma updateMetaTag_falsy property content attributeType document :
  falsy content → updateMetaTag property content attributeType document = Normal document.
Proof.
  unfold falsy, updateMetaTag. destruct content as [c|]; [|done]. by intros ->.
Qed.

Lemma setAttribute_twice name value e :
  setAttribute name value (setAttribute name value e) = setAttribute name value e.
Proof. unfold setAttribute. cbn. by rewrite insert_insert_eq. Qed.

Lemma value_matches_refl name value : value_matches name value value.
Proof. unfold value_matches. by case_decide. Qed.

Lemma matches_setAttribute_content kind property content e :
  toLowerCase kind ≠ "content" →
  matches_selector kind property (setAttribute "content" content e)
  ↔ matches_selector kind property e.
Proof.
  intros Hkind. unfold matches_selector, setAttribute. cbn.
  change (toLowerCase "content") with "content".
  by rewrite lookup_insert_ne.
Qed.

Lemma new_tag_carries kind property content :
  toLowerCase kind ≠ "content" →
  carries kind property content
    (setAttribute "content" content (setAttribute kind property (createElement "meta"))).
Proof.
  intros Hkind. unfold carries, setAttribute, createElement. cbn.
  change (toLowerCase "content") with "content".
  split; [done |]. split.
  - by rewrite lookup_insert_ne, lookup_insert_eq.
  - by rewrite lookup_insert_eq.
Qed.

Lemma carries_matches kind property content tag :
  carries kind property content tag → matches_selector kind property tag.
Proof.
  intros (Hname & Hpair & _). split; [done |]. rewrite Hpair.
  apply value_matches_refl.
Qed.

Lemma updateMetaTag_found property content attributeType document i e :
  plain_pair property attributeType →
  truthy content = true →
  list_find (matches_selector (default "property" attributeType) property) document
  = Some (i, e) →
  updateMetaTag property (Some content) attributeType document
  = Normal (alter (setAttribute "content" content) i document).
Proof.
  intros (Hn & Hv & _) Hc Hfind. unfold updateMetaTag, querySelector_meta.
  by rewrite Hc, Hn, Hv, Hfind.
Qed.

Lemma updateMetaTag_created property content attributeType document :
  plain_pair property attributeType →
  truthy content = true →
  list_find (matches_selector (default "property" attributeType) property) document
  = None →
  updateMetaTag property (Some content) attributeType document
  = Normal (document ++ [setAttribute "content" content
                           (setAttribute (default "property" attributeType) property
                              (createElement "meta"))]).
Proof.
  intros (Hn & Hv & _) Hc Hfind. unfold updateMetaTag, querySelector_meta.
  by rewrite Hc, Hn, Hv, Hfind.
Qed.

Lemma updateMetaTag_idempotent property content attributeType document :
  plain_pair property attributeType →
  truthy content = true →
  ∃ updated,
    updateMetaTag property (Some content) attributeType document = Normal updated ∧
    updateMetaTag property (Some content) attributeType updated = Normal updated.
Proof.
  intros Hplain Hc. pose proof Hplain as (_ & _ & Hkind).
  set (kind := default "property" attributeType) in *.
  destruct (list_find (matches_selector kind property) document) as [[i e]|] eqn:Hfind.
  - eexists. split; [by apply (updateMetaTag_found _ _ _ _ i e) |].
    apply list_find_Some in Hfind as (Hi & He & Hbefore).
    rewrite (updateMetaTag_found _ _ _ _ i (setAttribute "content" content e) Hplain Hc).
    + f_equal. rewrite list_alter_alter_eq. apply list_alter_ext; [|done].
      intros x _. apply setAttribute_twice.
    + apply list_find_Some. split; [by rewrite list_lookup_alter_eq, Hi |].
      split; [by apply matches_setAttribute_content |].
      intros j y Hj Hji. rewrite list_lookup_alter_ne in Hj by lia. by eapply Hbefore.
  - eexists. split; [by apply updateMetaTag_created |].
    apply list_find_None in Hfind.
    set (tag := setAttribute "content" content _).
    rewrite (updateMetaTag_found _ _ _ _ (length document) tag Hplain Hc).
    + f_equal. rewrite alter_app_r_alt by lia. rewrite Nat.sub_diag. cbn.
      unfold tag. by rewrite setAttribute_twice.
    + apply list_find_Some. split; [by apply list_lookup_middle |].
      split; [by eapply carries_matches, new_tag_carries |].
      intros j y Hj Hjl. rewrite lookup_app_l in Hj by done.
      rewrite Forall_forall in Hfind. eapply Hfind, list_elem_of_lookup_2, Hj.
Qed.

(** C8 (amended). [updateMetaTag] leaves the document as it is when
    [content] is falsy.  Otherwise, for an attribute kind that is a plain
    name other than [content] and a property that is a plain value: on a
    document without a matching tag it appends exactly one tag, which
    carries the attribute/value pair and the content; and a second call with
    the same arguments changes nothing. *)
Theorem updateMetaTag_find_or_create property content attributeType document :
  (falsy content →
   updateMetaTag property content attributeType document = Normal document) ∧
  (∀ c, content = Some c → truthy c = true →
        plain_pair property attributeType →
        find_or_create property c attributeType document).
Proof.
  split; [apply updateMetaTag_falsy |].
  intros c -> Hc Hplain. pose proof Hplain as (_ & _ & Hkind).
  destruct (updateMetaTag_idempotent property c attributeType document Hplain Hc)
    as (updated & Hupd & Hagain).
  exists updated. split; [done |]. split; [|done].
  unfold matching_tags. intros Hnone.
  assert (Hfind : list_find (matches_selector (default "property" attributeType) property)
                    document = None).
  { apply list_find_None, Forall_forall. intros e He Hm.
    assert (e ∈ filter (matches_selector (default "property" attributeType) property) document)
      as Hin by by apply list_elem_of_filter.
    rewrite Hnone in Hin. by apply elem_of_nil in Hin. }
  rewrite (updateMetaTag_created _ _ _ _ Hplain Hc Hfind) in Hupd.
  injection Hupd as <-.
  eexists. split; [done |]. split; [by apply new_tag_carries |].
  rewrite filter_app, Hnone, filter_cons, filter_nil. cbn [app].
  rewrite decide_True; [done |]. by eapply carries_matches, new_tag_carries.
Qed.

Lemma updateMetaTag_find_or_create_witness :
  find_or_create "og:title" "Kali Linux" None [].
Proof.
  apply (updateMetaTag_find_or_create "og:title" (Some "Kali Linux") None []).
  - reflexivity.
  - reflexivity.
  - split; [reflexivity |]. split; [reflexivity |]. vm_compute. discriminate.
Defined.

(** C8, as stated, fails for the attribute kind [content]: the value of the
    pair is overwritten by the content, the tag no longer matches, and a
    second call appends a second tag.  It fails as well for a property with
    a double quote in it: the selector is malformed, [querySelector] throws,
    and no tag is created. *)
Lemma updateMetaTag_not_find_or_create :
  ¬ find_or_create "og:title" "Kali Linux" (Some "content") [] ∧
  ¬ find_or_create ("17" +:+ dq) "Kali Linux" None [].
Proof.
  split.
  - intros (updated & Hupd & _ & Hagain).
    vm_compute in Hupd. injection Hupd as <-.
    apply (f_equal (λ r, match r with Normal d => length d | Throw _ => 0 end)) in Hagain.
    vm_compute in Hagain. discriminate Hagain.
  - intros (updated & Hupd & _). vm_compute in Hupd. discriminate Hupd.
Qed.

(** ** [slugify] *)

(** C9. [slugify] turns the text [Hello, World!  Foo] into
    [hello-world-foo]: lower case, trimmed, each run of white space a
    hyphen, the characters that are neither word characters nor hyphens
    removed, and each run of hyphens a single one. *)
Theorem slugify_hello_world :
  slugify "Hello, World!  Foo" = "hello-world-foo" ∧
  trim (toLowerCase "Hello, World!  Foo") = "hello, world!  foo" ∧
  replace_whitespace false "hello, world!  foo" = "hello,-world!-foo" ∧
  strip_non_word "hello,-world!-foo" = "hello-world-foo" ∧
  collapse_hyphens false "hello-world-foo" = "hello-world-foo".
Proof. repeat split; reflexivity. Qed.


(** ** [extractKeywords]: the words *)

Lemma lower_run_length s : lower_run s ≤ String.length s.
Proof. induction s as [|c s IH]; cbn; [lia |]. destruct (isLower c); lia. Qed.

Lemma length_substring0_le k s :
  k ≤ String.length s → String.length (substring0 k s) = k.
Proof.
  revert s. induction k as [|k IH]; intros [|c s]; cbn; try lia.
  intros H. rewrite IH; lia.
Qed.

Lemma all_lower_substring0 k s : k ≤ lower_run s → all_lower (substring0 k s) = true.
Proof.
  revert s. induction k as [|k IH]; intros [|c s]; cbn; try done; try lia.
  destruct (isLower c); [|lia]. intros H. cbn. apply IH. lia.
Qed.

Lemma backtrack_Some k s m :
  backtrack k s = Some m → ∃ k', 4 ≤ k' ≤ k ∧ m = substring0 k' s.
Proof.
  induction k as [|k IH]; [done |]. cbn [backtrack].
  destruct (S k <? 4)%nat eqn:Hk; [done |]. apply Nat.ltb_ge in Hk.
  destruct (boundary _ _).
  - intros [= <-]. exists (S k). split; [lia | done].
  - intros (k' & ? & ->)%IH. exists k'. split; [lia | done].
Qed.

Lemma match_here_word prev s m :
  match_here prev s = Some m → (4 ≤ String.length m) ∧ all_lower m = true.
Proof.
  unfold match_here. destruct (boundary _ _); [|done].
  intros (k & [Hk4 Hk] & ->)%backtrack_Some.
  pose proof (lower_run_length s).
  rewrite length_substring0_le by lia. split; [done |].
  by apply all_lower_substring0.
Qed.

Lemma match_all_words prev skip s w :
  w ∈ match_all prev skip s → (4 ≤ String.length w) ∧ all_lower w = true.
Proof.
  revert prev skip. induction s as [|c s IH]; intros prev skip; cbn [match_all].
  - by intros ?%elem_of_nil.
  - destruct skip as [|skip]; [|apply IH].
    destruct (match_here prev (String c s)) as [m|] eqn:Hm; [|apply IH].
    intros [-> | Hw]%elem_of_cons; [by eapply match_here_word | by eapply IH].
Qed.


(** ** [extractKeywords]: the [frequency] object *)

Implicit Types (o : list (string * Value)) (ws : list string).



Lemma set_own_keys key v o :
  (set_own key v o).*1 = if decide (key ∈ o.*1) then o.*1 else o.*1 ++ [key].
Proof.
  induction o as [|[k w] o IH]; cbn.
  - case_decide as H; [by apply elem_of_nil in H | done].
  - destruct (decide (k = key)) as [-> | Hne]; cbn.
    + rewrite decide_True by left. done.
    + rewrite IH. destruct (decide (key ∈ o.*1)) as [Hin | Hnin].
      * by rewrite decide_True by by right.
      * rewrite decide_False; [done |]. rewrite not_elem_of_cons. done.
Qed.


Lemma count_words_snoc ws word :
  count_words (ws ++ [word])
  = set_own word (incremented (count_words ws) word) (count_words ws).
Proof. unfold count_words. by rewrite foldl_snoc. Qed.

(** The keys are the words met, each once. *)
Lemma count_words_keys ws word : word ∈ (count_words ws).*1 ↔ word ∈ ws.
Proof.
  induction ws as [|w ws IH] using rev_ind; [done |].
  rewrite count_words_snoc, set_own_keys, elem_of_app, list_elem_of_singleton.
  case_decide as Hin.
  - split; [intros H%IH; by left | intros [H | ->]; [by apply IH | done]].
  - by rewrite elem_of_app, list_elem_of_singleton, IH.
Qed.

Lemma count_words_NoDup ws : NoDup (count_words ws).*1.
Proof.
  induction ws as [|w ws IH] using rev_ind; [constructor |].
  rewrite count_words_snoc, set_own_keys. case_decide as Hin; [done |].
  apply NoDup_app. split; [done |]. split; [|apply NoDup_singleton].
  intros x Hx ->%list_elem_of_singleton. done.
Qed.





(** ** [extractKeywords]: the order of the keys *)







(** ** Order in a list, by positions and by sublists *)



(** ** [extractKeywords]: the result *)











Example extractKeywords_kali :
  extractKeywords "Kali Linux tools: nmap and the Kali tools" None
  = ["kali"; "tools"; "linux"; "nmap"].
Proof. by vm_compute. Qed.


(** The word [constructor] is found in [Object.prototype]: its count is a
    text, the comparator answers [NaN] next to it, and a word that occurs
    twice stays behind one that occurs once. *)
Example extractKeywords_constructor :
  count_words (filtered "alpha constructor beta beta")
  = [("alpha", Num 1); ("constructor", Str "function Object() { [native code] }1");
     ("beta", Num 2)] ∧
  extractKeywords "alpha constructor beta beta" None = ["alpha"; "constructor"; "beta"] ∧
  ¬ ranked "alpha constructor beta beta"
      (extractKeywords "alpha constructor beta beta" None).
Proof.
  split; [by vm_compute |].
  assert (H : extractKeywords "alpha constructor beta beta" None
              = ["alpha"; "constructor"; "beta"]) by by vm_compute.
  split; [done |]. rewrite H. intros Hr.
  destruct (Hr 0 2 "alpha" "beta") as [Hle _]; [lia | done.. |].
  vm_compute in Hle. lia.
Qed.

End AutoContentManagerProps.


(** * Further properties of [RSSFetcher] *)
Module RSSFetcherMore.
Import JS RSSFetcher Spec JSProps RSSFetcherProps.

(** ** [escapeHtml] *)

Lemma length_append (s1 s2 : string) :
  String.length (s1 +:+ s2) = String.length s1 + String.length s2.
Proof.
  induction s1 as [|c s1 IH]; [done |]. rewrite append_cons. cbn. by rewrite IH.
Qed.

Lemma escape_char_cases m :
  (is_special m = true ∧
   (m = "&"%char ∧ escape_char m = "&amp;" ∨
    m = "<"%char ∧ escape_char m = "&lt;" ∨
    m = ">"%char ∧ escape_char m = "&gt;" ∨
    m = dq_char ∧ escape_char m = "&quot;" ∨
    m = "'"%char ∧ escape_char m = "&#039;")) ∨
  (is_special m = false ∧ escape_char m = String m "").
Proof.
  unfold is_special, escape_char.
  destruct (Ascii.eqb_spec m "&") as [-> | ?]; [left; split; [done | tauto] |].
  destruct (Ascii.eqb_spec m "<") as [-> | ?]; [left; split; [done | tauto] |].
  destruct (Ascii.eqb_spec m ">") as [-> | ?]; [left; split; [done | tauto] |].
  destruct (Ascii.eqb_spec m dq_char) as [-> | ?]; [left; split; [done | tauto] |].
  destruct (Ascii.eqb_spec m "'") as [-> | ?]; [left; split; [done | tauto] |].
  by right.
Qed.

Ltac escape_cases m H :=
  destruct (escape_char_cases m)
    as [[H [[-> ->] | [[-> ->] | [[-> ->] | [[-> ->] | [-> ->]]]]]] | [H ->]].

(** X1. [escapeHtml] loses nothing: two texts with the same escaped form are
    the same text. *)
Theorem escapeHtml_injective text1 text2 :
  escapeHtml text1 = escapeHtml text2 → text1 = text2.
Proof.
  revert text2. induction text1 as [|m1 t1 IH]; intros [|m2 t2]; cbn [escapeHtml].
  - done.
  - escape_cases m2 H2; rewrite ?append_cons; discriminate.
  - escape_cases m1 H1; rewrite ?append_cons; discriminate.
  - escape_cases m1 H1; escape_cases m2 H2; rewrite ?append_cons, ?append_nil;
      intros Heq; try discriminate Heq;
      try (injection Heq as Heq; by rewrite (IH _ Heq));
      try (injection Heq as -> Heq; by rewrite (IH _ Heq));
      try (injection Heq as -> _; discriminate);
      try (injection Heq as <- _; discriminate).
Qed.

Lemma escapeHtml_injective_witness :
  ("Tom & Jerry" : string) = "Tom & Jerry".
Proof. apply (escapeHtml_injective "Tom & Jerry" "Tom & Jerry"). reflexivity. Defined.

Lemma length_escapeHtml text :
  String.length text ≤ String.length (escapeHtml text) ∧
  (has_special text = true → String.length text < String.length (escapeHtml text)).
Proof.
  induction text as [|m t [IH1 IH2]]; [done |].
  cbn [escapeHtml has_special]. rewrite length_append.
  escape_cases m H; rewrite H; cbn; split; try lia.
  intros Hs. specialize (IH2 Hs). lia.
Qed.

Lemma escapeHtml_plain text : has_special text = false → escapeHtml text = text.
Proof.
  induction text as [|m t IH]; [done |]. cbn [escapeHtml has_special].
  intros [Hm Ht]%orb_false_iff.
  escape_cases m H; try congruence. by rewrite append_cons, append_nil, IH.
Qed.

(** X2. [escapeHtml] never shortens a text, and returns the text as it is
    exactly when none of the five special characters occurs in it. *)
Theorem escapeHtml_unchanged_iff text :
  String.length text ≤ String.length (escapeHtml text) ∧
  (escapeHtml text = text ↔ has_special text = false).
Proof.
  split; [apply length_escapeHtml |]. split; [|apply escapeHtml_plain].
  intros Heq. destruct (has_special text) eqn:Hs; [|done].
  pose proof (proj2 (length_escapeHtml text) Hs) as Hlt. rewrite Heq in Hlt. lia.
Qed.


(** ** [generateArticleHTML]: when it returns, and the optional blocks *)

Lemma map_throwing_Normal_iff {A B} (f : A → Completion B) l :
  (∃ ys, map_throwing f l = Normal ys) ↔ Forall (λ x, ∃ y, f x = Normal y) l.
Proof.
  split; [|apply map_throwing_total].
  intros [ys H]. apply map_throwing_Normal in H.
  induction H; constructor; eauto.
Qed.

Lemma map_throwing_Throw {A B} (f : A → Completion B) l e :
  map_throwing f l = Throw e → ∃ x, x ∈ l ∧ f x = Throw e.
Proof.
  induction l as [|x l IH]; cbn; [done |].
  destruct (f x) as [y|e'] eqn:Hx; cbn.
  - destruct (map_throwing f l) as [ys|e'] eqn:Hl; cbn; [done |].
    intros [= ->]. destruct (IH eq_refl) as (x' & ? & ?). exists x'. split; [by right | done].
  - intros [= ->]. exists x. split; [left | done].
Qed.

Lemma articleTemplate_Normal_iff fmt a :
  (∃ chunks, render <$> articleTemplate fmt a = Normal chunks)
  ↔ ∃ t, pubDate a = DateObject (ValidDate t).
Proof.
  unfold articleTemplate.
  destruct (pubDate a) as [[t|]| |]; cbn; split;
    try (intros [? [=]]); try (intros [? [=]]; fail); eauto.
Qed.

Lemma articleTemplate_Throw fmt a e :
  render <$> articleTemplate fmt a = Throw e → e = RangeError ∨ e = TypeError.
Proof.
  unfold articleTemplate.
  destruct (pubDate a) as [[t|]| |]; cbn; intros [= <-]; auto.
Qed.

(** X3. [generateArticleHTML] returns exactly when every one of the first
    [maxArticles] articles has a valid [Date]; the articles after them do
    not matter.  When it throws, it is a [RangeError] or a [TypeError]. *)
Theorem generateArticleHTML_returns_iff fmt this articles :
  ((∃ html, generateArticleHTML fmt this articles = Normal html)
   ↔ all_dated (slice0 (maxArticles this) articles)) ∧
  (∀ e, generateArticleHTML fmt this articles = Throw e →
        e = RangeError ∨ e = TypeError).
Proof.
  unfold generateArticleHTML, all_dated. split.
  - rewrite <-(Forall_iff _ _ _ (articleTemplate_Normal_iff fmt)).
    rewrite <-map_throwing_Normal_iff. split.
    + intros [html H]. destruct (map_throwing _ _) as [cards|]; [by eexists | done].
    + intros [cards ->]. by eexists.
  - intros e. destruct (map_throwing _ _) as [cards|e'] eqn:H; cbn; [done |].
    intros [= ->]. apply map_throwing_Throw in H as (a & _ & H).
    by eapply articleTemplate_Throw.
Qed.

Lemma count_markup_app s l1 l2 :
  count_markup s (l1 ++ l2) = count_markup s l1 + count_markup s l2.
Proof. unfold count_markup. by rewrite filter_app, length_app. Qed.

Lemma count_markup_cons s c l :
  count_markup s (c :: l) = (if is_markup s c then 1 else 0) + count_markup s l.
Proof.
  unfold count_markup. rewrite filter_cons.
  destruct (is_markup s c); by case_decide.
Qed.

Lemma count_markup_nil s : count_markup s [] = 0.
Proof. done. Qed.

Lemma count_markup_categories s (cats : list string) :
  count_markup s
    (cats ≫= λ cat, [Markup tpl_category_open; Escaped cat; Markup tpl_category_close])
  = length cats *
    ((if String.eqb tpl_category_open s then 1 else 0) +
     (if String.eqb tpl_category_close s then 1 else 0)).
Proof.
  induction cats as [|cat cats IH]; [done |].
  rewrite bind_cons.
  rewrite count_markup_app, IH, !count_markup_cons, count_markup_nil.
  cbn [is_markup length]. lia.
Qed.

Ltac eval_eqb :=
  repeat match goal with
  | |- context [String.eqb ?x ?y] =>
      let b := eval vm_compute in (String.eqb x y) in
      change (String.eqb x y) with b
  end.

(** X4. The optional blocks of a card: the thumbnail block is there exactly
    when the thumbnail is not empty, the author block exactly when the
    author is not [Unknown], and there is one category tag for each of the
    first three categories and none for the others. *)
Theorem articleTemplate_optional_blocks fmt a chunks :
  articleTemplate fmt a = Normal chunks →
  count_markup tpl_thumb_open chunks = (if truthy (thumbnail a) then 1 else 0) ∧
  count_markup tpl_author_open chunks
  = (if bool_decide (author a = "Unknown") then 0 else 1) ∧
  count_markup tpl_category_open chunks = 3 `min` length (categories a).
Proof.
  unfold articleTemplate.
  destruct (pubDate a) as [[t|]| |]; cbn [mbind Completion_bind bind pubDate_toISOString formatDate];
    try discriminate.
  intros [= <-].
  assert (Hlen : length (slice0 3 (categories a)) = 3 `min` length (categories a))
    by apply length_take.
  destruct (truthy (thumbnail a)); repeat case_bool_decide; try done;
    repeat (rewrite count_markup_app || rewrite count_markup_cons ||
            rewrite count_markup_categories || rewrite count_markup_nil);
    rewrite ?Hlen; cbn [is_markup]; eval_eqb; repeat split; lia.
Qed.

Lemma articleTemplate_optional_blocks_witness :
  count_markup tpl_thumb_open Demo.hostile_chunks = 0 ∧
  count_markup tpl_author_open Demo.hostile_chunks = 1 ∧
  count_markup tpl_category_open Demo.hostile_chunks = 2.
Proof.
  apply (articleTemplate_optional_blocks Demo.utc_format Demo.hostile Demo.hostile_chunks).
  reflexivity.
Defined.


(** ** [sanitizeText] and [parseFeedItems]: what every article satisfies *)









(** ** The cache: what a read gives back, and what a write replaces *)

Lemma Article_toJSON_cached_form a : cached_form a (Article_toJSON a).
Proof. unfold cached_form. cbn. by repeat split. Qed.

(** X6. A read that follows a write before the record expires returns as
    many articles as were stored, in the same order, each with its title,
    link, description, author, thumbnail, categories and source as they
    were, and with its [pubDate] as the ISO text of the date ([null] for an
    invalid date); whatever the slot held before is gone. *)
Theorem cache_roundtrip_fields this articles t0 now b :
  storage_full b = false →
  (now - t0 < updateInterval this)%Z →
  ∃ cached,
    getCachedArticles this now (cacheArticles articles t0 b) = Some cached ∧
    Forall2 cached_form articles cached.
Proof.
  intros Hfull Hfresh. eexists. split; [by apply cacheArticles_getCachedArticles |].
  apply Forall2_fmap_r, Forall_Forall2_diag, Forall_forall.
  intros a _. apply Article_toJSON_cached_form.
Qed.

Lemma cache_roundtrip_fields_witness :
  ∃ cached,
    getCachedArticles Demo.defaults 2000
      (cacheArticles [Demo.hostile; Demo.undated] 1000 Demo.cached_page) = Some cached ∧
    Forall2 cached_form [Demo.hostile; Demo.undated] cached.
Proof.
  apply (cache_roundtrip_fields Demo.defaults [Demo.hostile; Demo.undated] 1000 2000
           Demo.cached_page).
  - reflexivity.
  - reflexivity.
Defined.

(** X7. The cache holds one batch: a write replaces the one before it
    entirely.  A write that storage refuses changes nothing and is not
    reported, and no write touches the elements of the page. *)
Theorem cacheArticles_replaces articles1 t1 articles2 t2 b :
  cacheArticles articles2 t2 (cacheArticles articles1 t1 b) = cacheArticles articles2 t2 b ∧
  (storage_full b = true → cacheArticles articles1 t1 b = b) ∧
  elements (cacheArticles articles1 t1 b) = elements b.
Proof.
  unfold cacheArticles, setItem. destruct (storage_full b) eqn:Hfull; cbn.
  - by rewrite ?Hfull.
  - rewrite ?Hfull. cbn. by rewrite insert_insert_eq.
Qed.


(** ** [displayArticles]: what a call may change and how it can end *)

Section DisplayProps.
Variable Date_parse : string → JSDate.
Variable textContent_of : string → string.
Variable innerText_of : string → string.
Variable toLocaleDateString : Z → string.

Local Abbreviation display :=
  (displayArticles Date_parse textContent_of innerText_of toLocaleDateString).
Local Abbreviation parse := (parseFeedItems Date_parse textContent_of innerText_of).
Local Abbreviation html_of := (generateArticleHTML toLocaleDateString).

Lemma same_but_feed_refl this b : same_but_feed this b b.
Proof. by repeat split. Qed.

Lemma same_but_feed_trans this b1 b2 b3 :
  same_but_feed this b1 b2 → same_but_feed this b2 b3 → same_but_feed this b1 b3.
Proof.
  intros (He1 & Hs1 & Hf1 & Hc1) (He2 & Hs2 & Hf2 & Hc2). repeat split.
  - intros s Hs. by rewrite He2, He1.
  - intros k Hk. by rewrite Hs2, Hs1.
  - congruence.
  - rewrite Hc2. apply Hc1.
  - rewrite <-Hc1. apply Hc2.
Qed.

Lemma same_but_feed_set_innerHTML this html b :
  is_Some (elements b !! container this) →
  same_but_feed this b (set_innerHTML (container this) html b).
Proof.
  intros Hc. unfold same_but_feed, set_innerHTML. cbn. repeat split; try done.
  - intros s Hs. by rewrite lookup_insert_ne.
  - intros _. rewrite lookup_insert_eq. by eexists.
Qed.

Lemma same_but_feed_cacheArticles this articles now b :
  same_but_feed this b (cacheArticles articles now b).
Proof.
  unfold cacheArticles, setItem. destruct (storage_full b) eqn:Hfull; cbn.
  - apply same_but_feed_refl.
  - unfold same_but_feed. cbn. repeat split; try done.
    intros k Hk. by rewrite lookup_insert_ne.
Qed.

Lemma html_of_Throw this articles e :
  html_of this articles = Throw e → e = RangeError ∨ e = TypeError.
Proof.
  unfold generateArticleHTML. intros H.
  destruct (map_throwing _ _) as [cards|e'] eqn:Hm; [done |].
  injection H as ->. apply map_throwing_Throw in Hm as (a & _ & Ha).
  by apply articleTemplate_Throw in Ha.
Qed.

Lemma displayArticles_changes this net t_read t_write b :
  same_but_feed this b (display this net t_read t_write b).1.
Proof.
  unfold displayArticles. destruct (elements b !! container this) as [old|] eqn:Hc.
  2: { apply same_but_feed_refl. }
  assert (Hload : same_but_feed this b (set_innerHTML (container this) loading_html b)).
  { apply same_but_feed_set_innerHTML. rewrite Hc. by eexists. }
  assert (Hset : ∀ html b', same_but_feed this b b' →
            same_but_feed this b (set_innerHTML (container this) html b')).
  { intros html b' Hb'. eapply same_but_feed_trans; [exact Hb' |].
    apply same_but_feed_set_innerHTML. apply Hb'. rewrite Hc. by eexists. }
  destruct (getCachedArticles _ _ _) as [cached|].
  - destruct (generateArticleHTML _ _ cached); cbn; [by apply Hset | done].
  - case_bool_decide; cbn; [by apply Hset |].
    assert (Hcache : ∀ articles, same_but_feed this b
              (cacheArticles articles t_write
                 (set_innerHTML (container this) loading_html b))).
    { intros articles. eapply same_but_feed_trans; [exact Hload |].
      apply same_but_feed_cacheArticles. }
    destruct (generateArticleHTML _ _ _); cbn; [by apply Hset | apply Hcache].
Qed.


(** X9. With the container on the page, a call of [displayArticles] ends
    in one of three ways: the container shows the cards of some list of
    articles, or the message that loading failed, or the call fails with a
    RangeError or a TypeError - and then the container is left showing the
    loading placeholder. *)
Theorem displayArticles_outcome this net t_read t_write b :
  is_Some (elements b !! container this) →
  let '(b', completion) := display this net t_read t_write b in
  match completion with
  | Normal _ =>
      elements b' !! container this = Some error_html ∨
      ∃ articles html,
        html_of this articles = Normal html ∧
        elements b' !! container this = Some html
  | Throw e =>
      elements b' !! container this = Some loading_html ∧
      (e = RangeError ∨ e = TypeError)
  end.
Proof.
  intros [old Hc]. unfold displayArticles. rewrite Hc.
  destruct (getCachedArticles _ _ _) as [cached|].
  - destruct (generateArticleHTML _ _ cached) as [html|e] eqn:Hh.
    + right. exists cached, html. split; [done |]. cbn. by rewrite lookup_insert_eq.
    + split; [cbn; by rewrite lookup_insert_eq | by eapply html_of_Throw].
  - case_bool_decide.
    + left. cbn. by rewrite lookup_insert_eq.
    + destruct (generateArticleHTML _ _ _) as [html|e] eqn:Hh.
      * right. eexists _, html. split; [exact Hh |]. cbn. by rewrite lookup_insert_eq.
      * split; [| by eapply html_of_Throw].
        rewrite elements_cacheArticles. cbn. by rewrite lookup_insert_eq.
Qed.

Lemma set_innerHTML_twice selector html1 html2 b :
  set_innerHTML selector html2 (set_innerHTML selector html1 b)
  = set_innerHTML selector html2 b.
Proof. unfold set_innerHTML. cbn. by rewrite insert_insert_eq. Qed.

(** X10. When the cache has nothing to offer and no feed could be fetched,
    the container shows the message that loading failed, the call completes
    normally, and the cache is not written. *)
Theorem displayArticles_all_failed this net t_read t_write b :
  is_Some (elements b !! container this) →
  getCachedArticles this t_read b = None →
  (∀ url, url ∈ feeds this → fetch_failed this net url) →
  display this net t_read t_write b
  = (set_innerHTML (container this) error_html b, Normal ()).
Proof.
  intros [old Hc] Hmiss Hfail. unfold displayArticles.
  rewrite Hc, getCachedArticles_set_innerHTML, Hmiss.
  destruct (fetchAllFeeds_keeps_successes_only this net) as (_ & _ & _ & Hnone).
  rewrite (Hnone Hfail). cbn. by rewrite set_innerHTML_twice.
Qed.

(** X11. On a cache hit the network is not consulted and the cache record
    is left as it is (its time stamp is not renewed): the outcome is the
    same whatever the feeds would answer. *)
Theorem displayArticles_cache_hit this cached net1 net2 t_read t_write1 t_write2 b :
  getCachedArticles this t_read b = Some cached →
  display this net1 t_read t_write1 b = display this net2 t_read t_write2 b ∧
  localStorage (display this net1 t_read t_write1 b).1 = localStorage b.
Proof.
  intros Hhit. unfold displayArticles.
  destruct (elements b !! container this); [|done].
  rewrite getCachedArticles_set_innerHTML, Hhit.
  by destruct (generateArticleHTML _ _ cached).
Qed.

Lemma parseFeedItems_DateObject feedData a :
  a ∈ parse feedData → ∃ d, pubDate a = DateObject d.
Proof.
  unfold parseFeedItems. destruct feedData as [fd|]; [|by intros ?%elem_of_nil].
  destruct (items fd) as [its|]; [|by intros ?%elem_of_nil].
  intros (item & -> & _)%list_elem_of_fmap. by eexists.
Qed.

Lemma elem_of_concat {A} (x : A) (ls : list (list A)) :
  x ∈ concat ls ↔ ∃ l, x ∈ l ∧ l ∈ ls.
Proof.
  induction ls as [|l ls IH]; cbn.
  - split; [by intros ?%elem_of_nil | by intros (? & _ & ?%elem_of_nil)].
  - rewrite elem_of_app, IH. split.
    + intros [Hx|(l' & Hx & Hl')]; [exists l; split; [done | left] |].
      exists l'. split; [done | by right].
    + intros (l' & Hx & [->|Hl']%elem_of_cons); [by left |]. right. by exists l'.
Qed.

Lemma foldl_concat {A B} (f : A → list B) l acc :
  foldl (λ acc x, acc ++ f x) acc l = acc ++ concat (f <$> l).
Proof.
  revert acc. induction l as [|x l IH]; intros acc; cbn.
  - by rewrite app_nil_r.
  - by rewrite IH, app_assoc.
Qed.

Lemma articleTemplate_DateObject a e d :
  pubDate a = DateObject d →
  render <$> articleTemplate toLocaleDateString a = Throw e → e = RangeError.
Proof.
  intros Hd. unfold articleTemplate. rewrite Hd. destruct d as [t|]; cbn; congruence.
Qed.

Lemma displayArticles_fresh_Throw this net t_read t_write b e :
  getCachedArticles this t_read b = None →
  (display this net t_read t_write b).2 = Throw e → e = RangeError.
Proof.
  intros Hmiss. unfold displayArticles.
  destruct (elements b !! container this); [|done].
  rewrite getCachedArticles_set_innerHTML, Hmiss.
  case_bool_decide; [done |].
  destruct (generateArticleHTML _ _ _) as [html|e'] eqn:Hh; cbn; [done |].
  intros [= ->]. unfold generateArticleHTML in Hh.
  destruct (map_throwing _ _) as [cards|e'] eqn:Hm; [done |].
  injection Hh as ->. apply map_throwing_Throw in Hm as (a & Ha & Hthrow).
  apply slice0_subseteq in Ha. rewrite sorted_fresh_contents in Ha.
  rewrite Array_sort_perm, foldl_concat in Ha. cbn in Ha.
  apply elem_of_concat in Ha as (l & Ha & Hl).
  apply list_elem_of_fmap in Hl as (feed & -> & _).
  apply parseFeedItems_DateObject in Ha as [d Hd].
  by eapply articleTemplate_DateObject.
Qed.

(** X12. A call of [displayArticles] fails with a TypeError only when it
    took its articles from the cache: articles that were just fetched never
    cause one. *)
Theorem displayArticles_TypeError_from_cache this net t_read t_write b :
  (display this net t_read t_write b).2 = Throw TypeError →
  ∃ cached, getCachedArticles this t_read b = Some cached.
Proof.
  intros Hthrow. destruct (getCachedArticles this t_read b) as [cached|] eqn:Hc.
  - by exists cached.
  - by apply displayArticles_fresh_Throw in Hthrow.
Qed.

Lemma Article_toJSON_Throw a :
  render <$> articleTemplate toLocaleDateString (Article_toJSON a) = Throw TypeError.
Proof.
  unfold articleTemplate. cbn [pubDate Article_toJSON].
  by destruct (pubDate a) as [[t|]|s|].
Qed.

(** X13. Loading the page twice: after a call that fetched at least one
    article and stored it, a second call before the cache expires fails
    with a TypeError and leaves the container showing the loading
    placeholder, whatever the first call showed. *)
Theorem displayArticles_again_fails this net net' t1 t_write1 t2 t_write2 b :
  is_Some (elements b !! container this) →
  getCachedArticles this t1 b = None →
  storage_full b = false →
  (1 ≤ maxArticles this)%Z →
  (∃ feed, feed ∈ fetchAllFeeds this net ∧ parse feed ≠ []) →
  (t2 - t_write1 < updateInterval this)%Z →
  let b1 := (display this net t1 t_write1 b).1 in
  display this net' t2 t_write2 b1
  = (set_innerHTML (container this) loading_html b1, Throw TypeError).
Proof.
  intros Hc Hmiss Hfull Hmax (feed & Hfeed & Hitems) Hfresh b1.
  assert (Hc1 : is_Some (elements b1 !! container this)).
  { by apply (displayArticles_changes this net t1 t_write1 b). }
  destruct Hc as [old Hc]. destruct Hc1 as [old1 Hc1].
  set (all := foldl (λ allArticles feed, allArticles ++ parse feed) []
                (fetchAllFeeds this net)).
  assert (Hall : sorted_fresh all ≠ []).
  { rewrite sorted_fresh_contents. intros Hnil.
    pose proof (Array_sort_perm compareByDate all) as Hp. rewrite Hnil in Hp.
    apply Permutation_nil_l in Hp. unfold all in Hp. rewrite foldl_concat in Hp.
    cbn in Hp. destruct (parse feed) as [|a l] eqn:Hf; [done |].
    assert (Ha : a ∈ concat (parse <$> fetchAllFeeds this net)).
    { apply elem_of_concat. exists (parse feed). split; [rewrite Hf; left |].
      by apply list_elem_of_fmap_2. }
    rewrite <-Hp in Ha. by apply elem_of_nil in Ha. }
  assert (Hstored : localStorage b1 !! "rss_cache"
                    = Some (CacheRecord (Article_toJSON <$> sorted_fresh all) t_write1)).
  { unfold b1, displayArticles. rewrite Hc, getCachedArticles_set_innerHTML, Hmiss.
    case_bool_decide as Hlen.
    { apply length_zero_iff_nil in Hlen. rewrite Hlen in Hfeed.
      by apply elem_of_nil in Hfeed. }
    fold all. destruct (generateArticleHTML _ _ _); cbn; by apply cacheArticles_stores. }
  unfold displayArticles. rewrite Hc1, getCachedArticles_set_innerHTML.
  rewrite (getCachedArticles_record _ _ _ _ _ Hstored).
  rewrite bool_decide_eq_true_2 by done.
  destruct (sorted_fresh all) as [|a rest]; [done |].
  unfold generateArticleHTML, slice0.
  destruct (Z.leb_spec 0 (maxArticles this)); [|lia].
  destruct (Z.to_nat (maxArticles this)) as [|n] eqn:Hn; [lia |].
  cbn [fmap list_fmap take map_throwing]. by rewrite Article_toJSON_Throw.
Qed.

(** X14. The periodic refresh does not depend on what the cache holds, and
    it never fails with a TypeError: it always goes to the network. *)
Theorem autoUpdateTick_refetches this net t_read t_write b stored :
  autoUpdateTick Date_parse textContent_of innerText_of toLocaleDateString
    this net t_read t_write
    {| elements := elements b;
       localStorage := <["rss_cache" := stored]> (localStorage b);
       storage_full := storage_full b |}
  = autoUpdateTick Date_parse textContent_of innerText_of toLocaleDateString
      this net t_read t_write b ∧
  (autoUpdateTick Date_parse textContent_of innerText_of toLocaleDateString
     this net t_read t_write b).2 ≠ Throw TypeError.
Proof.
  unfold autoUpdateTick. split.
  - f_equal. unfold removeItem. cbn. by rewrite delete_insert_eq.
  - intros Hthrow. apply displayArticles_fresh_Throw in Hthrow; [done |].
    unfold getCachedArticles, removeItem. cbn. by rewrite lookup_delete_eq.
Qed.


End DisplayProps.

Lemma displayArticles_outcome_witness :
  is_Some (elements Demo.cached_page !! container Demo.defaults) ∧
  let '(b', completion) :=
    displayArticles Demo.no_dates Demo.plain_text Demo.plain_text Demo.utc_format
      Demo.defaults Demo.half_down 2000 2000 Demo.cached_page in
  match completion with
  | Normal _ =>
      elements b' !! container Demo.defaults = Some error_html ∨
      ∃ articles html,
        generateArticleHTML Demo.utc_format Demo.defaults articles = Normal html ∧
        elements b' !! container Demo.defaults = Some html
  | Throw e =>
      elements b' !! container Demo.defaults = Some loading_html ∧
      (e = RangeError ∨ e = TypeError)
  end.
Proof.
  assert (H : is_Some (elements Demo.cached_page !! container Demo.defaults))
    by (by eexists).
  split; [exact H |].
  exact (displayArticles_outcome Demo.no_dates Demo.plain_text Demo.plain_text
           Demo.utc_format Demo.defaults Demo.half_down 2000 2000 Demo.cached_page H).
Defined.


Lemma displayArticles_all_failed_witness :
  displayArticles Demo.no_dates Demo.plain_text Demo.plain_text Demo.utc_format
    Demo.two_feeds (λ _, Some Demo.server_error) 2000 2000 Demo.empty_page
  = (set_innerHTML (container Demo.two_feeds) error_html Demo.empty_page, Normal ()).
Proof.
  apply (displayArticles_all_failed Demo.no_dates Demo.plain_text Demo.plain_text
           Demo.utc_format Demo.two_feeds (λ _, Some Demo.server_error) 2000 2000
           Demo.empty_page).
  - by eexists.
  - reflexivity.
  - intros url _. right. reflexivity.
Defined.

Lemma displayArticles_cache_hit_witness :
  displayArticles Demo.no_dates Demo.plain_text Demo.plain_text Demo.utc_format
    Demo.defaults Demo.half_down 2000 3000 Demo.cached_page
  = displayArticles Demo.no_dates Demo.plain_text Demo.plain_text Demo.utc_format
      Demo.defaults (λ _, None) 2000 4000 Demo.cached_page ∧
  localStorage
    (displayArticles Demo.no_dates Demo.plain_text Demo.plain_text Demo.utc_format
       Demo.defaults Demo.half_down 2000 3000 Demo.cached_page).1
  = localStorage Demo.cached_page.
Proof.
  apply (displayArticles_cache_hit Demo.no_dates Demo.plain_text Demo.plain_text
           Demo.utc_format Demo.defaults [Demo.hostile_cached] Demo.half_down (λ _, None)
           2000 3000 4000 Demo.cached_page).
  reflexivity.
Defined.

Lemma displayArticles_TypeError_from_cache_witness :
  ∃ cached, getCachedArticles Demo.defaults 2000 Demo.cached_page = Some cached.
Proof.
  apply (displayArticles_TypeError_from_cache Demo.no_dates Demo.plain_text
           Demo.plain_text Demo.utc_format Demo.defaults Demo.half_down 2000 3000
           Demo.cached_page).
  vm_compute. reflexivity.
Defined.

Lemma displayArticles_again_fails_witness :
  let b1 :=
    (displayArticles Demo.epoch_parser Demo.plain_text Demo.plain_text Demo.utc_format
       Demo.two_feeds Demo.half_down 1000 1000 Demo.empty_page).1 in
  displayArticles Demo.epoch_parser Demo.plain_text Demo.plain_text Demo.utc_format
    Demo.two_feeds Demo.half_down 2000 2000 b1
  = (set_innerHTML (container Demo.two_feeds) loading_html b1, Throw TypeError).
Proof.
  apply (displayArticles_again_fails Demo.epoch_parser Demo.plain_text Demo.plain_text
           Demo.utc_format Demo.two_feeds Demo.half_down Demo.half_down
           1000 1000 2000 2000 Demo.empty_page).
  - by eexists.
  - reflexivity.
  - reflexivity.
  - reflexivity || (vm_compute; discriminate).
  - exists (Some Demo.three_items). split.
    + assert (H : fetchAllFeeds Demo.two_feeds Demo.half_down = [Some Demo.three_items])
        by (vm_compute; reflexivity).
      rewrite H. apply list_elem_of_here.
    + discriminate.
  - reflexivity.
Defined.


(** ** Sorting what is sorted already *)

Lemma Array_sort_sorted {A} (key : A → Z) (l : list A) :
  StronglySorted (λ x y, key y ≤ key x)%Z l →
  Array_sort (λ x y, Some (key y - key x)%Z) l = l.
Proof.
  induction 1 as [|x l Hl IH Hx]; [done |].
  cbn [Array_sort]. rewrite IH. destruct l as [|y l']; [done |].
  cbn [insert_sorted]. unfold SortCompare. cbn [default].
  apply Forall_cons in Hx as [Hy _]. cbn beta in Hy.
  unfold id. destruct (Z.leb_spec (key y - key x) 0); [done | lia].
Qed.

Lemma StronglySorted_of_lookup {A} (R : A → A → Prop) (l : list A) :
  (∀ i j x y, i < j → l !! i = Some x → l !! j = Some y → R x y) →
  StronglySorted R l.
Proof.
  induction l as [|x l IH]; intros H; constructor.
  - apply IH. intros i j a b Hij Hi Hj. apply (H (S i) (S j)); [lia | done | done].
  - apply Forall_lookup. intros j y Hj. apply (H 0 (S j)); [lia | done | done].
Qed.

Lemma dated_time_of a : 
  (∃ t, pubDate a = DateObject (ValidDate t)) → pubDate a = DateObject (ValidDate (time_of a)).
Proof. intros [t Ht]. unfold time_of. by rewrite Ht. Qed.

(** X15. Sorting is idempotent on dated articles: an array whose articles
    all have a valid date and are already newest first is left exactly as
    it is, so sorting a second time changes nothing. *)
Theorem sortArticlesByDate_sorted_unchanged heap articles contents :
  heap !! articles = Some contents →
  all_dated contents →
  (non_increasing_pubDate contents → sortArticlesByDate articles heap = (articles, heap)) ∧
  sortArticlesByDate articles (sortArticlesByDate articles heap).2
  = sortArticlesByDate articles heap.
Proof.
  intros Hheap Hdated.
  rewrite (sortArticlesByDate_contents _ _ _ Hheap). cbn [snd].
  rewrite (sortArticlesByDate_contents _ _ (Array_sort compareByDate contents))
    by apply lookup_insert_eq.
  rewrite insert_insert_eq. split.
  - intros Hsorted. rewrite Array_sort_dated by done.
    rewrite Array_sort_sorted; [by rewrite insert_id |].
    apply StronglySorted_of_lookup. intros i j a b Hij Hi Hj.
    unfold all_dated in Hdated. rewrite Forall_lookup in Hdated.
    apply (Hsorted i j a b); [done | done | done | |];
      apply dated_time_of; eauto.
  - do 2 f_equal.
    assert (Hd' : all_dated (Array_sort compareByDate contents)).
    { unfold all_dated. by rewrite Array_sort_perm. }
    rewrite (Array_sort_dated _ Hd'). apply Array_sort_sorted.
    rewrite Array_sort_dated by done. apply (Array_sort_desc time_of).
Qed.

Lemma sortArticlesByDate_sorted_unchanged_witness :
  (non_increasing_pubDate [Demo.newer; Demo.older] →
   sortArticlesByDate 0 {[ 0 := [Demo.newer; Demo.older] ]}
   = (0, {[ 0 := [Demo.newer; Demo.older] ]})) ∧
  sortArticlesByDate 0 (sortArticlesByDate 0 {[ 0 := [Demo.newer; Demo.older] ]}).2
  = sortArticlesByDate 0 {[ 0 := [Demo.newer; Demo.older] ]}.
Proof.
  apply (sortArticlesByDate_sorted_unchanged {[ 0 := [Demo.newer; Demo.older] ]} 0
           [Demo.newer; Demo.older]).
  - reflexivity.
  - repeat constructor; by eexists.
Defined.

End RSSFetcherMore.



(** * Further properties of [AutoContentManager] *)
Module AutoContentManagerMore.
Import JS AutoContentManager ContentSpec JSProps AutoContentManagerProps.


(** ** [slugify] *)

Ltac char_cases :=
  unfold slug_char, isWordChar, isLower, isUpper, isDigit, isWhiteSpace, isHyphen,
    in_range, code in *;
  repeat match goal with
         | |- context [(?a <=? ?b)%nat] => destruct (Nat.leb_spec a b)
         | |- context [(?a =? ?b)%nat] => destruct (Nat.eqb_spec a b)
         | H : context [(?a <=? ?b)%nat] |- _ => destruct (Nat.leb_spec a b)
         | H : context [(?a =? ?b)%nat] |- _ => destruct (Nat.eqb_spec a b)
         end;
  cbn in *; intros; try done; try lia.

Lemma string_forall_impl (p r : ascii → bool) s :
  (∀ c, p c = true → r c = true) → string_forall p s = true → string_forall r s = true.
Proof.
  intros Hpr. induction s as [|c s IH]; cbn; [done |].
  intros [Hc Hs]%andb_true_iff. by rewrite (Hpr c Hc), IH.
Qed.

Lemma code_toLowerCase_char c :
  code (toLowerCase_char c) = if isUpper c then code c + 32 else code c.
Proof.
  unfold toLowerCase_char. destruct (isUpper c) eqn:Hu; [|done].
  unfold code. apply nat_ascii_embedding. revert Hu. char_cases.
Qed.

Lemma toLowerCase_char_not_upper c : isUpper (toLowerCase_char c) = false.
Proof.
  pose proof (code_toLowerCase_char c) as Hc. revert Hc.
  unfold isUpper at 2, in_range. intros ->.
  destruct (isUpper c) eqn:Hu; revert Hu; char_cases.
Qed.

Lemma toLowerCase_no_upper s :
  string_forall (λ c, negb (isUpper c)) (toLowerCase s) = true.
Proof.
  induction s as [|c s IH]; cbn; [done |].
  by rewrite IH, toLowerCase_char_not_upper.
Qed.

Lemma string_forall_trimStart p s :
  string_forall p s = true → string_forall p (trimStart s) = true.
Proof.
  induction s as [|c s IH]; cbn; [done |].
  intros [Hc Hs]%andb_true_iff. destruct (isWhiteSpace c); [by apply IH |].
  cbn. by rewrite Hc, Hs.
Qed.

Lemma string_forall_trimEnd p s :
  string_forall p s = true → string_forall p (trimEnd s) = true.
Proof.
  induction s as [|c s IH]; cbn; [done |].
  intros [Hc Hs]%andb_true_iff. specialize (IH Hs).
  destruct (trimEnd s) as [|d r].
  - destruct (isWhiteSpace c); cbn; [done | by rewrite Hc].
  - cbn in *. by rewrite Hc, IH.
Qed.

Lemma string_forall_replace_whitespace p in_run s :
  p "-"%char = true →
  string_forall p s = true → string_forall p (replace_whitespace in_run s) = true.
Proof.
  intros Hp. revert in_run. induction s as [|c s IH]; intros in_run; cbn; [done |].
  intros [Hc Hs]%andb_true_iff.
  destruct (isWhiteSpace c); [destruct in_run |]; cbn; rewrite ?Hp, ?Hc; by apply IH.
Qed.

Lemma string_forall_strip_non_word p s :
  string_forall p s = true →
  string_forall (λ c, p c && (isWordChar c || isHyphen c)) (strip_non_word s) = true.
Proof.
  induction s as [|c s IH]; cbn; [done |].
  intros [Hc Hs]%andb_true_iff.
  destruct (isWordChar c || isHyphen c) eqn:Hw; cbn; rewrite ?Hc, ?Hw; by apply IH.
Qed.

Lemma string_forall_collapse_hyphens p in_run s :
  string_forall p s = true → string_forall p (collapse_hyphens in_run s) = true.
Proof.
  revert in_run. induction s as [|c s IH]; intros in_run; cbn; [done |].
  intros [Hc Hs]%andb_true_iff.
  destruct (isHyphen c); [destruct in_run |]; cbn; rewrite ?Hc; by apply IH.
Qed.

Lemma no_double_hyphen_cons c s :
  no_double_hyphen (String c s)
  = (negb (isHyphen c) || starts_plain s) && no_double_hyphen s.
Proof.
  destruct s as [|d s]; cbn; [by rewrite orb_true_r |].
  by rewrite negb_andb.
Qed.

Lemma collapse_hyphens_no_double in_run s :
  no_double_hyphen (collapse_hyphens in_run s) = true ∧
  (in_run = true → starts_plain (collapse_hyphens in_run s) = true).
Proof.
  revert in_run. induction s as [|c s IH]; intros in_run; [done |].
  cbn [collapse_hyphens]. destruct (isHyphen c) eqn:Hc.
  - destruct in_run; [apply IH |].
    split; [|done]. rewrite no_double_hyphen_cons.
    destruct (IH true) as [H1 H2]. rewrite H1, (H2 eq_refl). by rewrite orb_true_r.
  - split; [|by cbn; rewrite Hc].
    rewrite no_double_hyphen_cons, Hc. by destruct (IH false) as [-> _].
Qed.

Lemma slugify_is_slug text : is_slug (slugify text).
Proof.
  unfold is_slug, slugify. split; [|apply collapse_hyphens_no_double].
  apply string_forall_collapse_hyphens.
  eapply string_forall_impl;
    [|apply string_forall_strip_non_word, string_forall_replace_whitespace;
      [|apply string_forall_trimEnd, string_forall_trimStart, toLowerCase_no_upper]];
    [|done].
  intros c. cbn beta. char_cases.
Qed.

(** What a slug is left alone by. *)

Lemma toLowerCase_id s :
  string_forall (λ c, negb (isUpper c)) s = true → toLowerCase s = s.
Proof.
  induction s as [|c s IH]; cbn; [done |].
  intros [Hc Hs]%andb_true_iff. rewrite IH by done.
  unfold toLowerCase_char. by destruct (isUpper c).
Qed.

Lemma trimStart_id s :
  string_forall (λ c, negb (isWhiteSpace c)) s = true → trimStart s = s.
Proof.
  destruct s as [|c s]; cbn; [done |]. by destruct (isWhiteSpace c).
Qed.

Lemma trimEnd_id s :
  string_forall (λ c, negb (isWhiteSpace c)) s = true → trimEnd s = s.
Proof.
  induction s as [|c s IH]; cbn; [done |].
  intros [Hc Hs]%andb_true_iff. rewrite IH by done.
  destruct s; [|done]. by destruct (isWhiteSpace c).
Qed.

Lemma replace_whitespace_id in_run s :
  string_forall (λ c, negb (isWhiteSpace c)) s = true → replace_whitespace in_run s = s.
Proof.
  revert in_run. induction s as [|c s IH]; intros in_run; cbn; [done |].
  intros [Hc Hs]%andb_true_iff. destruct (isWhiteSpace c); [done |]. by rewrite IH.
Qed.

Lemma strip_non_word_id s :
  string_forall (λ c, isWordChar c || isHyphen c) s = true → strip_non_word s = s.
Proof.
  induction s as [|c s IH]; cbn; [done |].
  intros [-> Hs]%andb_true_iff. by rewrite IH.
Qed.

Lemma collapse_hyphens_id in_run s :
  no_double_hyphen s = true → (in_run = true → starts_plain s = true) →
  collapse_hyphens in_run s = s.
Proof.
  revert in_run. induction s as [|c s IH]; intros in_run; [done |].
  rewrite no_double_hyphen_cons. intros [Hc Hs]%andb_true_iff Hrun.
  cbn [collapse_hyphens]. destruct (isHyphen c) eqn:Hh.
  - destruct in_run; [by specialize (Hrun eq_refl); cbn in Hrun; rewrite Hh in Hrun |].
    by rewrite IH.
  - by rewrite IH.
Qed.

Lemma slugify_of_slug s : is_slug s → slugify s = s.
Proof.
  intros [Hchars Hdouble]. unfold slugify.
  assert (Hws : string_forall (λ c, negb (isWhiteSpace c)) s = true).
  { eapply string_forall_impl; [|exact Hchars]. intros c. cbn beta. char_cases. }
  rewrite toLowerCase_id.
  2: { eapply string_forall_impl; [|exact Hchars]. intros c. cbn beta. char_cases. }
  unfold trim. rewrite trimStart_id, trimEnd_id, replace_whitespace_id by done.
  rewrite strip_non_word_id.
  2: { eapply string_forall_impl; [|exact Hchars]. intros c. cbn beta. char_cases. }
  by apply collapse_hyphens_id.
Qed.

(** X16. A slug is made of lower-case letters, digits, underscores and
    hyphens, with no two hyphens in a row; [slugify] leaves exactly such
    texts as they are, so a slug of a slug is the slug. *)
Theorem slugify_slug text :
  is_slug (slugify text) ∧
  (slugify text = text ↔ is_slug text) ∧
  slugify (slugify text) = slugify text.
Proof.
  split; [apply slugify_is_slug |]. split.
  - split; [intros <-; apply slugify_is_slug | apply slugify_of_slug].
  - apply slugify_of_slug, slugify_is_slug.
Qed.


(** ** [extractKeywords] *)

Lemma NoDup_slice0 {A} n (l : list A) : NoDup l → NoDup (slice0 n l).
Proof.
  unfold slice0. destruct (0 <=? n)%Z; intros H; eapply sublist_NoDup; try exact H;
    apply sublist_take.
Qed.

Lemma slice0_fmap {A B} (f : A → B) n (l : list A) : f <$> slice0 n l = slice0 n (f <$> l).
Proof.
  unfold slice0. rewrite length_fmap. by destruct (0 <=? n)%Z; rewrite fmap_take.
Qed.

Lemma words_long text w : w ∈ words text → 4 ≤ String.length w.
Proof. intros Hw. by apply match_all_words in Hw as [? _]. Qed.

Lemma length_count_words ws : length (count_words ws) ≤ length ws.
Proof.
  induction ws as [|w ws IH] using rev_ind; [done |].
  rewrite count_words_snoc, length_app. cbn.
  rewrite <-(length_fmap fst (set_own _ _ _)), set_own_keys.
  case_decide; rewrite ?length_app, length_fmap; cbn; lia.
Qed.

(** X17. No keyword is returned twice, and when the count is at least the
    number of words that are left after filtering, every one of them is
    among the keywords. *)
Theorem extractKeywords_distinct text count :
  NoDup (extractKeywords text count) ∧
  ((Z.of_nat (length (filtered text)) ≤ default 10 count)%Z →
   ∀ w, w ∈ filtered text → w ∈ extractKeywords text count).
Proof.
  unfold extractKeywords. rewrite slice0_fmap. split.
  - apply NoDup_slice0. rewrite Array_sort_perm. apply count_words_NoDup.
  - intros Hcount w Hw. rewrite slice0_all.
    + rewrite Array_sort_perm. by apply count_words_keys.
    + rewrite length_fmap, Array_sort_perm.
      pose proof (length_count_words (filtered text)). lia.
Qed.

Lemma filter_ext_elem_of {A} (P Q : A → Prop) `{!∀ x, Decision (P x)}
    `{!∀ x, Decision (Q x)} (l : list A) :
  (∀ x, x ∈ l → P x ↔ Q x) → filter P l = filter Q l.
Proof.
  induction l as [|x l IH]; intros Hl; [done |].
  rewrite !filter_cons, IH by (intros y Hy; apply Hl; by right).
  pose proof (Hl x (list_elem_of_here _ _)). repeat case_decide; tauto || done.
Qed.

(** X18. Of the fourteen common words only [which] and [with] are ever
    filtered out: the others have fewer than four letters and are no words
    of the text to begin with. *)
Theorem filtered_which_with text :
  filtered text = filter (λ w, w ≠ "which" ∧ w ≠ "with") (words text).
Proof.
  unfold filtered. apply filter_ext_elem_of. intros w Hw.
  apply words_long in Hw. unfold commonWords.
  rewrite !not_elem_of_cons. split.
  - intros H. tauto.
  - intros [H1 H2]. repeat split; try done; try (intros ->; cbn in Hw; lia).
    apply not_elem_of_nil.
Qed.


(** ** Find the element or create it, then set one attribute

    [updateMetaTag], [setCanonicalURL] and [updateKeywords] have one shape:
    the first element that a selector finds, or else a new element at the
    end of the head, gets one attribute set.  The selector does not test
    that attribute. *)

Lemma same_but_refl attr e : same_but attr e e.
Proof. by split. Qed.


Lemma same_but_setAttribute attr v e :
  toLowerCase attr = attr → same_but attr e (setAttribute attr v e).
Proof.
  intros Hl. split; [done |]. intros a Ha. cbn. rewrite Hl. by rewrite lookup_insert_ne.
Qed.

Lemma Forall2_same_but_refl attr d : Forall2 (same_but attr) d d.
Proof. apply Forall_Forall2_diag, Forall_forall. intros e _. apply same_but_refl. Qed.

Lemma Forall2_same_but_alter attr v i d :
  toLowerCase attr = attr →
  Forall2 (same_but attr) d (alter (setAttribute attr v) i d).
Proof.
  intros Hl. revert i. induction d as [|e d IH]; intros i; [constructor |].
  destruct i as [|i]; cbn; constructor.
  - by apply same_but_setAttribute.
  - apply Forall2_same_but_refl.
  - apply same_but_refl.
  - apply IH.
Qed.




Lemma length_filter_alter {A} (P : A → Prop) `{!∀ x, Decision (P x)} (f : A → A) i l :
  (∀ x, P (f x) ↔ P x) → length (filter P (alter f i l)) = length (filter P l).
Proof.
  intros Hf. revert i. induction l as [|x l IH]; intros i; [done |].
  destruct i as [|i]; cbn [alter list_alter].
  - rewrite !filter_cons. pose proof (Hf x). repeat case_decide; cbn; tauto || done.
  - rewrite !filter_cons. case_decide; cbn; by rewrite IH.
Qed.

Lemma filter_none {A} (P : A → Prop) `{!∀ x, Decision (P x)} (l : list A) :
  Forall (λ x, ¬ P x) l → filter P l = [].
Proof.
  induction 1 as [|x l Hx Hl IH]; [done |]. by rewrite filter_cons, decide_False.
Qed.

Section FindOrCreate.
Context (P : Element → Prop) `{!∀ e, Decision (P e)}.
Variables (attr : string) (e0 : Element).
Hypothesis attr_lower : toLowerCase attr = attr.
Hypothesis P_attr : ∀ v e, P (setAttribute attr v e) ↔ P e.
Hypothesis P_new : P e0.

Let upsert (v : string) (d : Document) : Document :=
  match list_find P d with
  | Some (i, _) => alter (setAttribute attr v) i d
  | None => d ++ [setAttribute attr v e0]
  end.

Lemma upsert_find v d :
  list_find P (upsert v d)
  = Some match list_find P d with
         | Some (i, e) => (i, setAttribute attr v e)
         | None => (length d, setAttribute attr v e0)
         end.
Proof.
  unfold upsert. destruct (list_find P d) as [[i e]|] eqn:Hfind.
  - apply list_find_Some in Hfind as (Hi & He & Hbefore).
    apply list_find_Some. split; [by rewrite list_lookup_alter_eq, Hi |].
    split; [by apply P_attr |].
    intros j y Hj Hji. rewrite list_lookup_alter_ne in Hj by lia. by eapply Hbefore.
  - apply list_find_None in Hfind.
    apply list_find_Some. split; [by apply list_lookup_middle |].
    split; [by apply P_attr |].
    intros j y Hj Hjl. rewrite lookup_app_l in Hj by done.
    rewrite Forall_forall in Hfind. eapply Hfind, list_elem_of_lookup_2, Hj.
Qed.

Lemma upsert_set v d :
  ∃ i e, list_find P (upsert v d) = Some (i, e) ∧ attributes e !! attr = Some v.
Proof.
  rewrite upsert_find.
  destruct (list_find P d) as [[i e]|]; eexists _, _; (split; [done |]); cbn;
    by rewrite attr_lower, lookup_insert_eq.
Qed.

Lemma setAttribute_overwrite name v1 v2 e :
  setAttribute name v2 (setAttribute name v1 e) = setAttribute name v2 e.
Proof. unfold setAttribute. cbn. by rewrite insert_insert_eq. Qed.

Lemma upsert_last_wins v1 v2 d : upsert v2 (upsert v1 d) = upsert v2 d.
Proof.
  unfold upsert at 1. rewrite upsert_find. unfold upsert.
  destruct (list_find P d) as [[i e]|] eqn:Hfind.
  - rewrite list_alter_alter_eq. apply list_alter_ext; [|done].
    intros x _. apply setAttribute_overwrite.
  - rewrite alter_app_r_alt by lia. rewrite Nat.sub_diag. cbn.
    by rewrite setAttribute_overwrite.
Qed.

Lemma upsert_count v d :
  length (filter P (upsert v d)) = length (filter P d) `max` 1.
Proof.
  unfold upsert. destruct (list_find P d) as [[i e]|] eqn:Hfind.
  - rewrite length_filter_alter by apply P_attr.
    apply list_find_Some in Hfind as (Hi & He & _).
    assert (Hin : e ∈ filter P d).
    { apply list_elem_of_filter. split; [done |]. by eapply list_elem_of_lookup_2. }
    destruct (filter P d); [by apply elem_of_nil in Hin | cbn; lia].
  - apply list_find_None in Hfind.
    rewrite filter_app, filter_cons, filter_nil, length_app.
    rewrite decide_True by by apply P_attr.
    assert (Hnil : filter P d = []).
    { by apply filter_none. }
    by rewrite Hnil.
Qed.

Lemma upsert_extended v d : extended attr 1 d (upsert v d).
Proof.
  unfold upsert. destruct (list_find P d) as [[i e]|].
  - exists (alter (setAttribute attr v) i d), []. split; [by rewrite app_nil_r |].
    split; [by apply Forall2_same_but_alter | cbn; lia].
  - eexists d, _. split; [done |]. split; [apply Forall2_same_but_refl | done].
Qed.
End FindOrCreate.

Lemma matches_element_setAttribute name attr value target v e :
  toLowerCase target ≠ attr →
  matches_element name attr value (setAttribute target v e)
  ↔ matches_element name attr value e.
Proof.
  intros Hne. unfold matches_element, setAttribute. cbn.
  by rewrite lookup_insert_ne.
Qed.

Lemma matches_element_new name attr value :
  toLowerCase attr = attr →
  matches_element name attr value (setAttribute attr value (createElement name)).
Proof.
  intros Hl. split; [done |]. cbn. rewrite Hl, lookup_insert_eq. apply value_matches_refl.
Qed.

(** ** [setCanonicalURL] *)

(** X19. After [setCanonicalURL(url)] the first canonical link of the
    document has [url] as its [href].  A canonical link is added only when
    there was none, so repeated calls never add a second one; the other
    elements and the other attributes are left as they were; and of two
    calls the later one decides. *)
Theorem setCanonicalURL_canonical url document :
  (∃ i e, list_find (matches_element "link" "rel" "canonical")
            (setCanonicalURL url document) = Some (i, e) ∧
          attributes e !! "href" = Some url) ∧
  length (filter (matches_element "link" "rel" "canonical") (setCanonicalURL url document))
  = length (filter (matches_element "link" "rel" "canonical") document) `max` 1 ∧
  extended "href" 1 document (setCanonicalURL url document) ∧
  (∀ later, setCanonicalURL later (setCanonicalURL url document)
            = setCanonicalURL later document).
Proof.
  assert (Hattr : ∀ v e, matches_element "link" "rel" "canonical" (setAttribute "href" v e)
                         ↔ matches_element "link" "rel" "canonical" e).
  { intros v e. by apply matches_element_setAttribute. }
  assert (Hnew : matches_element "link" "rel" "canonical"
                   (setAttribute "rel" "canonical" (createElement "link"))).
  { by apply matches_element_new. }
  unfold setCanonicalURL. split; [by apply upsert_set |].
  split; [by apply upsert_count |]. split; [by apply upsert_extended |].
  intros later. by apply upsert_last_wins.
Qed.

(** ** [updateKeywords] *)

Lemma list_find_iff {A} (P Q : A → Prop) `{!∀ x, Decision (P x)} `{!∀ x, Decision (Q x)}
    (l : list A) :
  (∀ x, P x ↔ Q x) → list_find P l = list_find Q l.
Proof.
  intros HPQ. induction l as [|x l IH]; [done |]. cbn.
  pose proof (HPQ x). rewrite IH. repeat case_decide; tauto || done.
Qed.

(** X20. After [updateKeywords(keywords)] the first [meta] tag named
    [keywords] has the keywords, joined by a comma and a space, as its
    content - also when there are no keywords, where the content is empty.
    A tag is added only when there was none; the other elements and
    attributes are left as they were; of two calls the later one decides;
    and when the joined text is not empty the call does what
    [updateMetaTag('keywords', text, 'name')] does. *)
Theorem updateKeywords_keywords keywords document :
  (∃ i e, list_find (matches_element "meta" "name" "keywords")
            (updateKeywords keywords document) = Some (i, e) ∧
          attributes e !! "content" = Some (join_comma keywords)) ∧
  length (filter (matches_element "meta" "name" "keywords")
            (updateKeywords keywords document))
  = length (filter (matches_element "meta" "name" "keywords") document) `max` 1 ∧
  extended "content" 1 document (updateKeywords keywords document) ∧
  (∀ later, updateKeywords later (updateKeywords keywords document)
            = updateKeywords later document) ∧
  (truthy (join_comma keywords) = true →
   updateMetaTag "keywords" (Some (join_comma keywords)) (Some "name") document
   = Normal (updateKeywords keywords document)).
Proof.
  assert (Hattr : ∀ v e, matches_element "meta" "name" "keywords" (setAttribute "content" v e)
                         ↔ matches_element "meta" "name" "keywords" e).
  { intros v e. by apply matches_element_setAttribute. }
  assert (Hnew : matches_element "meta" "name" "keywords"
                   (setAttribute "name" "keywords" (createElement "meta"))).
  { by apply matches_element_new. }
  unfold updateKeywords. split; [by apply upsert_set |].
  split; [by apply upsert_count |]. split; [by apply upsert_extended |].
  split; [intros later; by apply upsert_last_wins |].
  intros Htruthy. unfold updateMetaTag, querySelector_meta. rewrite Htruthy.
  cbn [negb default]. unfold id.
  assert (Hplain : plain_name "name" && plain_value "keywords" = true) by reflexivity.
  rewrite Hplain. cbn [mbind JS.Completion_bind JS.bind].
  by rewrite (list_find_iff (matches_selector "name" "keywords")
                (matches_element "meta" "name" "keywords") document (λ e, reflexivity _)).
Qed.

(** ** [updateMetaTag]: what a call changes *)

Lemma updateMetaTag_plain property content attributeType document :
  plain_pair property attributeType →
  truthy content = true →
  updateMetaTag property (Some content) attributeType document
  = Normal
      match list_find (matches_selector (default "property" attributeType) property)
              document with
      | Some (i, _) => alter (setAttribute "content" content) i document
      | None =>
          document ++
          [setAttribute "content" content
             (setAttribute (default "property" attributeType) property
                (createElement "meta"))]
      end.
Proof.
  intros (Hn & Hv & _) Hc. unfold updateMetaTag, querySelector_meta.
  by rewrite Hc, Hn, Hv.
Qed.

Lemma matches_selector_new kind property :
  matches_selector kind property (setAttribute kind property (createElement "meta")).
Proof.
  split; [done |]. cbn. rewrite lookup_insert_eq. apply value_matches_refl.
Qed.

(** X21. For a plain attribute kind other than [content], a plain property
    and a content that is not empty, [updateMetaTag] returns, and
    afterwards the first tag that matches has the content.  A tag is added
    only when none matched, so the number of matching tags stays what it
    was, or becomes one; the other elements and attributes are left as they
    were; and of two calls for the same pair the later one decides. *)
Theorem updateMetaTag_changes property content attributeType document :
  plain_pair property attributeType →
  truthy content = true →
  ∃ updated,
    updateMetaTag property (Some content) attributeType document = Normal updated ∧
    (∃ i e, list_find (matches_selector (default "property" attributeType) property)
              updated = Some (i, e) ∧
            attributes e !! "content" = Some content) ∧
    length (matching_tags (default "property" attributeType) property updated)
    = length (matching_tags (default "property" attributeType) property document) `max` 1 ∧
    extended "content" 1 document updated ∧
    (∀ later, truthy later = true →
       updateMetaTag property (Some later) attributeType updated
       = updateMetaTag property (Some later) attributeType document).
Proof.
  intros Hplain Hc. pose proof Hplain as (_ & _ & Hkind).
  assert (Hattr : ∀ v e,
            matches_selector (default "property" attributeType) property
              (setAttribute "content" v e)
            ↔ matches_selector (default "property" attributeType) property e).
  { intros v e. by apply matches_setAttribute_content. }
  pose proof (matches_selector_new (default "property" attributeType) property) as Hnew.
  eexists. split; [by apply updateMetaTag_plain |].
  split; [by apply upsert_set |]. split; [by apply upsert_count |].
  split; [by apply upsert_extended |].
  intros later Hlater. rewrite !updateMetaTag_plain by done.
  f_equal. by apply upsert_last_wins.
Qed.

Lemma updateMetaTag_changes_witness :
  ∃ updated,
    updateMetaTag "og:title" (Some "Kali Linux") None
      [setAttribute "content" "Old" (setAttribute "property" "og:title" (createElement "meta"))]
    = Normal updated ∧
    (∃ i e, list_find (matches_selector (default "property" None) "og:title")
              updated = Some (i, e) ∧
            attributes e !! "content" = Some "Kali Linux") ∧
    length (matching_tags (default "property" None) "og:title" updated)
    = length (matching_tags (default "property" None) "og:title"
                [setAttribute "content" "Old"
                   (setAttribute "property" "og:title" (createElement "meta"))]) `max` 1 ∧
    extended "content" 1
      [setAttribute "content" "Old" (setAttribute "property" "og:title" (createElement "meta"))]
      updated ∧
    (∀ later, truthy later = true →
       updateMetaTag "og:title" (Some later) None updated
       = updateMetaTag "og:title" (Some later) None
           [setAttribute "content" "Old"
              (setAttribute "property" "og:title" (createElement "meta"))]).
Proof.
  apply (updateMetaTag_changes "og:title" "Kali Linux" None
           [setAttribute "content" "Old"
              (setAttribute "property" "og:title" (createElement "meta"))]).
  - split; [reflexivity |]. split; [reflexivity |]. vm_compute. discriminate.
  - reflexivity.
Defined.

(** ** [updateSEOMeta] *)








(** ** [generateSitemapEntry] *)

Lemma T_free_app s1 s2 : T_free s1 = true → T_free s2 = true → T_free (s1 +:+ s2) = true.
Proof.
  unfold T_free. induction s1 as [|c s1 IH]; [done |].
  rewrite RSSFetcherProps.append_cons. cbn.
  intros [-> H1]%andb_true_iff H2. by apply IH.
Qed.

Lemma before_T_app s rest :
  T_free s = true → before_T (s +:+ String "T" rest) = s.
Proof.
  unfold T_free. induction s as [|c s IH]; [done |].
  rewrite RSSFetcherProps.append_cons. cbn.
  intros [Hc Hs]%andb_true_iff. apply negb_true_iff in Hc. rewrite Hc. by rewrite IH.
Qed.

Lemma digit_not_T n : (0 ≤ n < 10)%Z → Ascii.eqb (digit n) "T" = false.
Proof.
  intros Hn.
  assert (n = 0 ∨ n = 1 ∨ n = 2 ∨ n = 3 ∨ n = 4 ∨ n = 5 ∨ n = 6 ∨ n = 7 ∨ n = 8 ∨ n = 9)%Z
    as Hcases by lia.
  repeat destruct Hcases as [->|Hcases]; try subst n; reflexivity.
Qed.

Lemma T_free_pad w n : T_free (pad w n) = true.
Proof.
  revert n. induction w as [|w IH]; intros n; [done |]. cbn [pad].
  apply T_free_app; [apply IH |]. unfold T_free. cbn.
  rewrite digit_not_T; [done |]. apply Z.mod_pos_bound. lia.
Qed.

Lemma T_free_year_text y : T_free (year_text y) = true.
Proof.
  unfold year_text. destruct (_ && _); [apply T_free_pad |].
  apply T_free_app; [by destruct (y <? 0)%Z | apply T_free_pad].
Qed.

Lemma length_pad w n : String.length (pad w n) = w.
Proof.
  revert n. induction w as [|w IH]; intros n; [done |]. cbn [pad].
  rewrite RSSFetcherMore.length_append, IH. cbn. lia.
Qed.

Lemma before_T_toISOString t : before_T (toISOString t) = date_part t.
Proof.
  unfold toISOString, date_part. destruct (civil_from_days _) as [[y m] d].
  set (rest := pad 2 (_ / 3600000) +:+ _).
  assert (H : year_text y +:+ "-" +:+ pad 2 m +:+ "-" +:+ pad 2 d +:+ "T" +:+ rest
              = (year_text y +:+ "-" +:+ pad 2 m +:+ "-" +:+ pad 2 d) +:+ String "T" rest).
  { by rewrite !RSSFetcherProps.append_assoc. }
  rewrite H. apply before_T_app.
  apply T_free_app; [apply T_free_year_text |]. apply T_free_app; [done |].
  apply T_free_app; [apply T_free_pad |]. apply T_free_app; [done | apply T_free_pad].
Qed.

Lemma length_date_part t :
  String.length (date_part t) = 10 ∨ String.length (date_part t) = 13.
Proof.
  unfold date_part. destruct (civil_from_days _) as [[y m] d].
  rewrite !RSSFetcherMore.length_append, !length_pad. cbn.
  unfold year_text. destruct (_ && _).
  - left. rewrite length_pad. lia.
  - right. rewrite RSSFetcherMore.length_append, length_pad.
    destruct (y <? 0)%Z; cbn; lia.
Qed.

Section SitemapProps.
Variable Date_parse : string → JSDate.

Local Abbreviation entry_for :=
  (λ article : SitemapArticle,
     iso ← Date_toISOString (Date_of Date_parse (sitemap_pubDate article));
     Normal {| loc := sitemap_link article; lastmod := before_T iso;
               changefreq := "daily"; priority := "0.8" |}).

Lemma entry_for_Normal article entry :
  entry_for article = Normal entry →
  ∃ t, Date_of Date_parse (sitemap_pubDate article) = ValidDate t ∧
       entry_of (sitemap_link article) t entry.
Proof.
  cbn beta. destruct (Date_of _ _) as [t|]; cbn; [|done].
  intros [= <-]. exists t. split; [done |]. repeat split. cbn.
  apply before_T_toISOString.
Qed.

(** X23. [generateSitemapEntry] returns exactly when [new Date(pubDate)] is
    a valid date for every article, and fails with a RangeError otherwise -
    so one article without a date leaves the caller without any entry.
    When it returns there is one entry for each article, in the same order,
    with the link of the article as its location, the UTC date of the
    article (the ISO text up to its [T], ten or thirteen characters) as its
    last modification, and the fixed change frequency and priority. *)
Theorem generateSitemapEntry_entries articles :
  ((∃ entries, generateSitemapEntry Date_parse articles = Normal entries)
   ↔ Forall (λ a, ∃ t, Date_of Date_parse (sitemap_pubDate a) = ValidDate t) articles) ∧
  (∀ e, generateSitemapEntry Date_parse articles = Throw e → e = RangeError) ∧
  (∀ entries, generateSitemapEntry Date_parse articles = Normal entries →
     Forall2 (λ a entry,
                ∃ t, Date_of Date_parse (sitemap_pubDate a) = ValidDate t ∧
                     entry_of (sitemap_link a) t entry ∧
                     (String.length (lastmod entry) = 10 ∨
                      String.length (lastmod entry) = 13))
       articles entries).
Proof.
  unfold generateSitemapEntry. split; [|split].
  - rewrite RSSFetcherMore.map_throwing_Normal_iff. apply Forall_iff.
    intros a. split.
    + intros [entry (t & Ht & _)%entry_for_Normal]. by exists t.
    + intros [t Ht]. rewrite Ht. cbn. by eexists.
  - intros e (a & _ & Ha)%RSSFetcherMore.map_throwing_Throw.
    destruct (Date_of _ _); cbn in Ha; congruence.
  - intros entries Hm%RSSFetcherProps.map_throwing_Normal.
    eapply Forall2_impl; [exact Hm |]. cbn beta.
    intros a entry (t & Ht & He)%entry_for_Normal. exists t.
    split; [done |]. split; [done |].
    destruct He as (_ & -> & _). apply length_date_part.
Qed.
End SitemapProps.

End AutoContentManagerMore.
